(** * Stock dashboard backend: chat context, symbol extraction, watchlist
      and the realtime broadcaster

    A shallow embedding of [backend/ai_service.py] and of the watchlist,
    chat and websocket handlers of [backend/main.py], with the properties
    the specification states about them.

    Python values are modelled as follows.  A [str] is a Rocq [string]
    where the text is ASCII (symbols, keys, fixed messages), with the ASCII
    upper-casing for [str.upper]; the symbol extraction is also modelled on
    sequences of code points, with the upper-case mapping of Unicode as a
    parameter (module [Unicode]); a [dict] with string keys is an association list
    read with [dict_get] (Python's [d.get(k, default)]); an [int] is a [Z];
    a [float] is kept abstract and only its two renderings are parameters;
    a raised exception is the [Raise] constructor of [result]. *)

From Stdlib Require Import ZArith NArith Ascii String List Bool Lia DecimalString.
From stdpp Require Import base option list strings gmap.

(* String concatenation is written [+:+]; it unfolds on a literal prefix. *)
#[local] Arguments String.append !_ _ /.

(** ** Python strings *)

Module Py.

(** [c.upper()] on one ASCII character. *)
Definition upper_ascii (c : ascii) : ascii :=
  let n := nat_of_ascii c in
  if (97 <=? n)%nat && (n <=? 122)%nat then ascii_of_nat (n - 32) else c.

(** [s.upper()]. *)
Fixpoint upper (s : string) : string :=
  match s with
  | EmptyString => EmptyString
  | String c s' => String (upper_ascii c) (upper s')
  end.

(** [s.startswith(p)]. *)
Fixpoint startswith (p s : string) : bool :=
  match p, s with
  | EmptyString, _ => true
  | String _ _, EmptyString => false
  | String a p', String b s' => Ascii.eqb a b && startswith p' s'
  end.

(** [p in s] for two strings: [p] occurs in [s] at some offset. *)
Fixpoint contains (p s : string) : bool :=
  startswith p s ||
  match s with
  | EmptyString => false
  | String _ s' => contains p s'
  end.

(** The declarative reading of [p in s]. *)
Definition occurs (p s : string) : Prop :=
  exists pre post, s = pre +:+ p +:+ post.

(** [p] occurs in [s] up to letter case. *)
Definition occurs_nocase (p s : string) : Prop :=
  exists pre w post, s = pre +:+ w +:+ post /\ upper w = upper p.

Lemma upper_ascii_idem c : upper_ascii (upper_ascii c) = upper_ascii c.
Proof. destruct c as [[] [] [] [] [] [] [] []]; reflexivity. Qed.

Lemma upper_idem s : upper (upper s) = upper s.
Proof.
  induction s as [|c s IH]; simpl; [reflexivity|].
  now rewrite upper_ascii_idem, IH.
Qed.

Lemma upper_app s t : upper (s +:+ t) = upper s +:+ upper t.
Proof. induction s as [|c s IH]; simpl; [reflexivity|]. now rewrite IH. Qed.

(** A split of [upper s] comes from a split of [s]. *)
Lemma upper_split s : forall a b,
  upper s = a +:+ b -> exists a' b', s = a' +:+ b' /\ upper a' = a /\ upper b' = b.
Proof.
  induction s as [|c s IH]; intros a b H.
  - destruct a; simpl in H; [|discriminate]. subst b.
    exists "", "". auto.
  - destruct a as [|x a]; simpl in H.
    + exists "", (String c s). subst b. auto.
    + injection H as Hx Ht. destruct (IH _ _ Ht) as (a' & b' & -> & Ha & Hb).
      exists (String c a'), b'. simpl. now rewrite Hx, Ha, Hb.
Qed.

Lemma startswith_spec p : forall s,
  startswith p s = true <-> exists post, s = p +:+ post.
Proof.
  induction p as [|a p IH]; intros s; simpl.
  - split; [intros _; now exists s | reflexivity].
  - destruct s as [|b s].
    + split; [discriminate | intros [post H]; discriminate].
    + rewrite andb_true_iff, Ascii.eqb_eq, IH. split.
      * intros [-> [post ->]]. now exists post.
      * intros [post H]. injection H as -> ->. eauto.
Qed.

Lemma contains_spec p : forall s, contains p s = true <-> occurs p s.
Proof.
  unfold occurs. induction s as [|b s IH]; simpl.
  - rewrite orb_false_r, startswith_spec. split.
    + intros [post H]. now exists "", post.
    + intros (pre & post & H). destruct pre; [|discriminate]. eauto.
  - rewrite orb_true_iff, startswith_spec, IH. split.
    + intros [[post H]|(pre & post & H)].
      * now exists "", post.
      * exists (String b pre), post. simpl. now rewrite H.
    + intros (pre & post & H). destruct pre as [|x pre]; simpl in H.
      * left. eauto.
      * right. injection H as _ H. eauto.
Qed.

Lemma app_empty_r s : s +:+ "" = s.
Proof. induction s as [|c s IH]; simpl; [reflexivity|]. now rewrite IH. Qed.

Lemma occurs_suffix pre p : occurs p (pre +:+ p).
Proof. exists pre, "". now rewrite app_empty_r. Qed.

(** Searching the upper-cased text for an upper-case word is the
    case-insensitive search of the text itself. *)
Lemma occurs_upper p s : upper p = p -> occurs p (upper s) <-> occurs_nocase p s.
Proof.
  intros Hp. unfold occurs, occurs_nocase. split.
  - intros (pre & post & H).
    destruct (upper_split _ _ _ H) as (pre' & r & -> & _ & Hr).
    destruct (upper_split _ _ _ Hr) as (w & post' & -> & Hw & _).
    exists pre', w, post'. now rewrite Hw, Hp.
  - intros (pre & w & post & -> & Hw).
    exists (upper pre), (upper post).
    now rewrite !upper_app, Hw, Hp.
Qed.

End Py.

(** ** Symbol extraction ([AIService.extract_stock_symbol]) *)

Module Extract.

Definition common_symbols : list string :=
  ["AAPL"; "GOOGL"; "MSFT"; "AMZN"; "TSLA"; "META"; "NVDA"; "JPM"; "V"; "WMT"].

(** The [for symbol in common_symbols] loop: return at the first symbol
    found in the upper-cased message. *)
Fixpoint scan (symbols : list string) (message_upper : string) : option string :=
  match symbols with
  | [] => None
  | symbol :: rest =>
      if Py.contains symbol message_upper then Some symbol
      else scan rest message_upper
  end.

Definition extract_stock_symbol (user_message : string) : option string :=
  let message_upper := Py.upper user_message in
  scan common_symbols message_upper.

Definition absent_from (user_message : string) (symbol : string) : Prop :=
  ~ Py.occurs_nocase symbol user_message.

Lemma common_symbols_upper : Forall (fun s => Py.upper s = s) common_symbols.
Proof. repeat constructor. Qed.

Lemma contains_nocase symbol m :
  Py.upper symbol = symbol ->
  Py.contains symbol (Py.upper m) = true <-> Py.occurs_nocase symbol m.
Proof. intros H. rewrite Py.contains_spec. now apply Py.occurs_upper. Qed.

Lemma scan_some symbols m s :
  Forall (fun s => Py.upper s = s) symbols ->
  scan symbols (Py.upper m) = Some s <->
  exists before after, symbols = before ++ s :: after /\
    Py.occurs_nocase s m /\ Forall (absent_from m) before.
Proof.
  induction symbols as [|x symbols IH]; intros Hup; simpl.
  - split; [discriminate|]. intros (before & after & H & _). now destruct before.
  - inversion Hup as [|? ? Hx Hrest]; subst.
    destruct (Py.contains x (Py.upper m)) eqn:E.
    + apply contains_nocase in E; [|assumption]. split.
      * intros [= <-]. exists [], symbols. repeat split; auto.
      * intros (before & after & H & Hs & Hb). destruct before as [|y before].
        -- simpl in H. now injection H as ->.
        -- simpl in H. injection H as <- _. inversion Hb; subst. contradiction.
    + assert (Hno : absent_from m x).
      { intros Ho. apply contains_nocase in Ho; [congruence|assumption]. }
      rewrite (IH Hrest). split.
      * intros (before & after & -> & Hs & Hb).
        exists (x :: before), after. repeat split; auto.
      * intros (before & after & H & Hs & Hb). destruct before as [|y before].
        -- simpl in H. injection H as -> _. contradiction.
        -- simpl in H. injection H as <- ->. inversion Hb; subst. eauto.
Qed.

Lemma scan_none symbols m :
  Forall (fun s => Py.upper s = s) symbols ->
  scan symbols (Py.upper m) = None <-> Forall (absent_from m) symbols.
Proof.
  induction symbols as [|x symbols IH]; intros Hup; simpl.
  - split; auto.
  - inversion Hup as [|? ? Hx Hrest]; subst.
    destruct (Py.contains x (Py.upper m)) eqn:E.
    + apply contains_nocase in E; [|assumption]. split; [discriminate|].
      intros H. inversion H; subst. contradiction.
    + rewrite (IH Hrest). split.
      * intros H. constructor; [|assumption].
        intros Ho. apply contains_nocase in Ho; [congruence|assumption].
      * intros H. now inversion H.
Qed.

End Extract.

(** ** Symbol extraction on Unicode text *)

Module Unicode.

(** A [str] of Python is a sequence of code points, and [str.upper] maps
    it character by character with the upper-case mapping of the Unicode
    database, which gives one character or several: that table is a
    parameter below, [upper_char]. *)
Abbreviation str := (list N).

(** The text of a literal of the source. *)
Definition of_string (s : string) : str :=
  N_of_ascii <$> list_ascii_of_string s.

(** [s.startswith(p)] and [p in s]. *)
Fixpoint startswith (p s : str) : bool :=
  match p, s with
  | [], _ => true
  | _ :: _, [] => false
  | a :: p', b :: s' => (a =? b)%N && startswith p' s'
  end.

Fixpoint contains (p s : str) : bool :=
  startswith p s ||
  match s with
  | [] => false
  | _ :: s' => contains p s'
  end.

Definition occurs (p s : str) : Prop :=
  exists pre post, s = pre ++ p ++ post.

Definition common_symbols : list str := of_string <$> Extract.common_symbols.

(** The [for symbol in common_symbols] loop. *)
Fixpoint scan (symbols : list str) (message_upper : str) : option str :=
  match symbols with
  | [] => None
  | symbol :: rest =>
      if contains symbol message_upper then Some symbol
      else scan rest message_upper
  end.

(** What the upper-case mapping does to the characters of ASCII: the
    letters a to z lose 32, the others stay. *)
Definition upper_ascii (c : N) : N :=
  if ((97 <=? c) && (c <=? 122))%N then (c - 32)%N else c.

Definition is_ascii (s : str) : Prop := Forall (fun c => (c < 128)%N) s.

Section Upper.

Variable upper_char : N -> str.

Definition upper (s : str) : str := flat_map upper_char s.

Definition extract_stock_symbol (user_message : str) : option str :=
  let message_upper := upper user_message in
  scan common_symbols message_upper.

(** [p] occurs in [s] up to letter case: a stretch of [s] and [p] have the
    same upper-case form. *)
Definition occurs_nocase (p s : str) : Prop :=
  exists pre w post, s = pre ++ w ++ post /\ upper w = upper p.

End Upper.

(** The stretches of a text. *)
Definition stretches (s : str) : list str :=
  i ← seq 0 (S (length s)); j ← seq 0 (S (length s)); [take j (drop i s)].

(** The upper-case mapping on ASCII and on two characters outside it:
    U+0149 (n preceded by an apostrophe), whose upper-case form is the two
    characters U+02BC U+004E, and U+017F (long s), whose upper-case form is
    S.  The other characters are left as they are here, which is not what
    the Unicode table does for all of them; nothing below reads the
    mapping on them. *)
Definition upper_sample (c : N) : str :=
  if (c <? 128)%N then [upper_ascii c]
  else if (c =? 0x149)%N then [0x2BC; 0x4E]%N
  else if (c =? 0x17F)%N then [0x53]%N
  else [c].

Lemma startswith_prefix p : forall s,
  startswith p s = true <-> exists post, s = p ++ post.
Proof.
  induction p as [|a p IH]; intros s; simpl.
  - split; [intros _; now exists s | reflexivity].
  - destruct s as [|b s].
    + split; [discriminate | intros [post H]; discriminate].
    + rewrite andb_true_iff, N.eqb_eq, IH. split.
      * intros [-> [post ->]]. now exists post.
      * intros [post H]. injection H as -> ->. eauto.
Qed.

Lemma contains_occurs p : forall s, contains p s = true <-> occurs p s.
Proof.
  unfold occurs. induction s as [|b s IH]; simpl.
  - rewrite orb_false_r, startswith_prefix. split.
    + intros [post H]. now exists [], post.
    + intros (pre & post & H). destruct pre; [|discriminate]. eauto.
  - rewrite orb_true_iff, startswith_prefix, IH. split.
    + intros [[post H]|(pre & post & H)].
      * now exists [], post.
      * exists (b :: pre), post. simpl. now rewrite H.
    + intros (pre & post & H). destruct pre as [|x pre]; simpl in H.
      * left. eauto.
      * right. injection H as _ H. eauto.
Qed.

(** The loop returns the first symbol of the list found in the text. *)
Lemma scan_first symbols m s :
  scan symbols m = Some s <->
  exists before after, symbols = before ++ s :: after /\
    occurs s m /\ Forall (fun earlier => ~ occurs earlier m) before.
Proof.
  induction symbols as [|x symbols IH]; simpl.
  - split; [discriminate|]. intros (before & after & H & _). now destruct before.
  - destruct (contains x m) eqn:E.
    + apply contains_occurs in E. split.
      * intros [= <-]. exists [], symbols. repeat split; auto.
      * intros (before & after & H & Hs & Hb). destruct before as [|y before].
        -- simpl in H. now injection H as ->.
        -- simpl in H. injection H as <- _. inversion Hb; subst. contradiction.
    + assert (Hno : ~ occurs x m).
      { intros Ho. apply contains_occurs in Ho. congruence. }
      rewrite IH. split.
      * intros (before & after & -> & Hs & Hb).
        exists (x :: before), after. repeat split; auto.
      * intros (before & after & H & Hs & Hb). destruct before as [|y before].
        -- simpl in H. injection H as -> _. contradiction.
        -- simpl in H. injection H as <- ->. inversion Hb; subst. eauto.
Qed.

Lemma scan_nothing symbols m :
  scan symbols m = None <-> Forall (fun symbol => ~ occurs symbol m) symbols.
Proof.
  induction symbols as [|x symbols IH]; simpl.
  - split; auto.
  - destruct (contains x m) eqn:E.
    + apply contains_occurs in E. split; [discriminate|].
      intros H. inversion H; subst. contradiction.
    + rewrite IH. split.
      * intros H. constructor; [|assumption].
        intros Ho. apply contains_occurs in Ho. congruence.
      * intros H. now inversion H.
Qed.

Lemma upper_concat upper_char (s t : str) :
  upper upper_char (s ++ t) = upper upper_char s ++ upper upper_char t.
Proof. apply flat_map_app. Qed.

Lemma stretches_spec (s pre w post : str) :
  s = pre ++ w ++ post -> w ∈ stretches s.
Proof.
  intros ->. unfold stretches.
  apply list_elem_of_bind. exists (length pre). split.
  - apply list_elem_of_bind. exists (length w). split.
    + rewrite drop_app_length, take_app_length. left.
    + apply elem_of_seq. rewrite !length_app. lia.
  - apply elem_of_seq. rewrite !length_app. lia.
Qed.

Lemma symbols_ascii :
  Forall (fun symbol => is_ascii symbol /\ upper_ascii <$> symbol = symbol) common_symbols.
Proof. repeat constructor. Qed.

Section UpperAscii.

Variable upper_char : N -> str.
Hypothesis upper_char_ascii : forall c, (c < 128)%N -> upper_char c = [upper_ascii c].

Lemma upper_ascii_text (s : str) : is_ascii s -> upper upper_char s = upper_ascii <$> s.
Proof.
  induction 1 as [|c s Hc _ IH]; [reflexivity|].
  unfold upper in *. simpl. now rewrite (upper_char_ascii c Hc), IH.
Qed.

(** On ASCII text, looking for an upper-case word in the upper-cased text
    is looking for the word up to letter case. *)
Lemma occurs_upper_ascii (p s : str) :
  is_ascii s -> is_ascii p -> upper_ascii <$> p = p ->
  occurs p (upper upper_char s) <-> occurs_nocase upper_char p s.
Proof.
  intros Hs Hp Hup. unfold occurs, occurs_nocase. split.
  - rewrite (upper_ascii_text s Hs). intros (pre & post & H).
    apply fmap_app_inv in H as (pre' & r & -> & Hr & ->).
    symmetry in Hr. apply fmap_app_inv in Hr as (w & post' & Hw & -> & ->).
    exists pre', w, post'. split; [reflexivity|].
    unfold is_ascii in Hs. rewrite !Forall_app in Hs. destruct Hs as (_ & Hw' & _).
    now rewrite (upper_ascii_text w Hw'), (upper_ascii_text p Hp), Hup.
  - intros (pre & w & post & -> & Hw).
    exists (upper upper_char pre), (upper upper_char post).
    now rewrite !upper_concat, Hw, (upper_ascii_text p Hp), Hup.
Qed.

End UpperAscii.

End Unicode.

(** ** The watchlist handlers of [main.py] *)

Module Watchlist.

(** A row of the [Watchlist] table; the store is the table, a row being
    identified by its position. *)
Record row := Row { user_id : string; symbol : string }.

Abbreviation store := (list row).

(** The request body of [POST /api/watchlist]. *)
Record WatchlistItem := Item { item_symbol : string; item_user_id : string }.

Inductive response :=
| Ok (message : string)
| HTTPException (status_code : nat) (detail : string).


(** [Watchlist.user_id == u, Watchlist.symbol == s]. *)
Definition row_is (u s : string) (r : row) : Prop :=
  user_id r = u /\ symbol r = s.

#[global] Instance row_is_dec u s r : Decision (row_is u s r).
Proof. unfold row_is. apply _. Defined.

#[global] Instance row_eq_dec : EqDecision row.
Proof. solve_decision. Defined.

(** [db.query(Watchlist).filter(...).first()]: the first matching row and
    where it is. *)
Definition query_first (u s : string) (db : store) : option (nat * row) :=
  list_find (row_is u s) db.

Definition add_to_watchlist (item : WatchlistItem) (db : store) : response * store :=
  let exists_ := query_first (item_user_id item) (Py.upper (item_symbol item)) db in
  match exists_ with
  | Some _ => (HTTPException 400 "Stock already in watchlist", db)
  | None =>
      let new_item := Row (item_user_id item) (Py.upper (item_symbol item)) in
      (Ok ("Added " +:+ item_symbol item +:+ " to watchlist"), db ++ [new_item])
  end.

Definition remove_from_watchlist (symbol user_id : string) (db : store)
  : response * store :=
  match query_first user_id (Py.upper symbol) db with
  | None => (HTTPException 404 "Stock not in watchlist", db)
  | Some (i, _) => (Ok ("Removed " +:+ symbol +:+ " from watchlist"), delete i db)
  end.

(** A client request, and a sequence of them served one after another. *)
Inductive request :=
| Post (item : WatchlistItem)
| Delete (symbol user_id : string).

Definition handle (q : request) (db : store) : response * store :=
  match q with
  | Post item => add_to_watchlist item db
  | Delete symbol user_id => remove_from_watchlist symbol user_id db
  end.

Fixpoint serve (qs : list request) (db : store) : store :=
  match qs with
  | [] => db
  | q :: qs' => serve qs' (snd (handle q db))
  end.

(** The rows stored for a pair, and the pair being stored; the symbol of a
    request is read in its canonical upper-case form. *)
Definition rows_for (u s : string) (db : store) : list row :=
  filter (row_is u s) db.

Definition stored (u s : string) (db : store) : Prop :=
  exists r, r ∈ db /\ row_is u (Py.upper s) r.

Definition unique_pairs (db : store) : Prop :=
  forall u s, length (rows_for u s db) <= 1.

Definition upper_symbols (db : store) : Prop :=
  Forall (fun r => Py.upper (symbol r) = symbol r) db.

Lemma query_first_None u s db :
  query_first u s db = None <-> rows_for u s db = [].
Proof.
  unfold query_first, rows_for. rewrite list_find_None.
  induction db as [|r db IH].
  - split; [reflexivity | constructor].
  - rewrite Forall_cons, filter_cons. destruct (decide (row_is u s r)).
    + split; [tauto | discriminate].
    + rewrite IH. tauto.
Qed.

Lemma query_first_None_stored u s db :
  query_first u (Py.upper s) db = None <-> ~ stored u s db.
Proof.
  unfold query_first, stored. rewrite list_find_None, Forall_forall.
  split.
  - intros H (r & Hin & Hr). exact (H r Hin Hr).
  - intros H r Hin Hr. apply H. eauto.
Qed.

Lemma rows_for_delete u s i db :
  length (rows_for u s (delete i db)) <= length (rows_for u s db).
Proof.
  unfold rows_for. revert i. induction db as [|r db IH]; intros i.
  - destruct i; reflexivity.
  - rewrite filter_cons. destruct i as [|i].
    + change (delete 0 (r :: db)) with db.
      destruct (decide _); simpl; lia.
    + change (delete (S i) (r :: db)) with (r :: delete i db).
      rewrite filter_cons. specialize (IH i).
      destruct (decide _); simpl; lia.
Qed.

Lemma rows_for_snoc u s db r :
  rows_for u s (db ++ [r]) =
  rows_for u s db ++ (if decide (row_is u s r) then [r] else []).
Proof.
  unfold rows_for. rewrite filter_app. reflexivity.
Qed.

Lemma add_unique item db : unique_pairs db -> unique_pairs (snd (add_to_watchlist item db)).
Proof.
  intros Hu. unfold add_to_watchlist.
  destruct (query_first _ _ db) as [?|] eqn:E; simpl; [assumption|].
  apply query_first_None in E. intros u s. rewrite rows_for_snoc.
  destruct (decide _) as [[Hu' Hs']|_].
  - simpl in Hu', Hs'. subst u s. rewrite E. simpl. lia.
  - rewrite app_nil_r. apply Hu.
Qed.

Lemma remove_unique s u db : unique_pairs db -> unique_pairs (snd (remove_from_watchlist s u db)).
Proof.
  intros Hu. unfold remove_from_watchlist.
  destruct (query_first _ _ db) as [[i r]|]; simpl; [|assumption].
  intros u' s'. etransitivity; [apply rows_for_delete | apply Hu].
Qed.

Lemma handle_unique q db : unique_pairs db -> unique_pairs (snd (handle q db)).
Proof. destruct q; simpl; auto using add_unique, remove_unique. Qed.

Lemma serve_unique qs : forall db, unique_pairs db -> unique_pairs (serve qs db).
Proof. induction qs as [|q qs IH]; simpl; auto using handle_unique. Qed.

Lemma handle_upper q db : upper_symbols db -> upper_symbols (snd (handle q db)).
Proof.
  unfold upper_symbols. intros H. destruct q as [item|s u]; simpl.
  - unfold add_to_watchlist. destruct (query_first _ _ db); simpl; [assumption|].
    apply Forall_app. split; [assumption|].
    constructor; [apply Py.upper_idem | constructor].
  - unfold remove_from_watchlist.
    destruct (query_first _ _ db) as [[i r]|]; simpl; [|assumption].
    now apply Forall_delete.
Qed.

Lemma serve_upper qs : forall db, upper_symbols db -> upper_symbols (serve qs db).
Proof. induction qs as [|q qs IH]; simpl; auto using handle_upper. Qed.

End Watchlist.

(** ** Python values, exceptions and formatting *)

Module Value.

(** The exceptions of the modelled code ([Exception] subclasses; [str(e)]
    is the detail).  Cancellation of a task is a [BaseException] and is
    handled in the broadcaster model only. *)
Inductive exn :=
| ValueError (detail : string)
| TypeError (detail : string)
| AttributeError (detail : string)
| TimeoutException (detail : string)
| ConnectError (detail : string)
| OtherError (detail : string).

Definition str_exn (e : exn) : string :=
  match e with
  | ValueError d | TypeError d | AttributeError d
  | TimeoutException d | ConnectError d | OtherError d => d
  end.

(** A call either returns or raises. *)
Inductive result (A : Type) :=
| Return (a : A)
| Raise (e : exn).
Arguments Return {A} a.
Arguments Raise {A} e.

Definition bind {A B} (r : result A) (k : A -> result B) : result B :=
  match r with
  | Return a => k a
  | Raise e => Raise e
  end.

#[global] Instance result_bind : MBind result := fun A B k r => bind r k.
#[global] Instance result_ret : MRet result := fun A a => Return a.

(** [format(n)] of an [int]. *)
Definition str_int (n : Z) : string := NilZero.string_of_int (Z.to_int n).

(** Commas every three digits, on the digits least significant first. *)
Fixpoint commas (rev_digits : list ascii) : list ascii :=
  match rev_digits with
  | a :: (b :: (c :: rest) as t2) as t1 =>
      match rest with
      | [] => rev_digits
      | _ :: _ => a :: b :: c :: ","%char :: commas rest
      end
  | _ => rev_digits
  end.

Definition group_digits (digits : string) : string :=
  string_of_list_ascii (rev (commas (rev (list_ascii_of_string digits)))).

(** [format(n, ',')] of an [int]. *)
Definition str_int_grouped (n : Z) : string :=
  (if (n <? 0)%Z then "-" else "") +:+ group_digits (str_int (Z.abs n)).

Definition strip_commas (s : list ascii) : list ascii :=
  filter (fun c => c <> ","%char) s.

Section Values.

(** A Python [float], known through its two renderings: [format(x)] and
    [format(x, ',')]. *)
Context {float : Type}.
Variable float_str : float -> string.
Variable float_grouped : float -> string.

(** The scalar values held by a snapshot or a chat turn. *)
Inductive value :=
| VNone
| VStr (s : string)
| VInt (n : Z)
| VFloat (x : float).

(** A [dict] with string keys; the first binding of a key is the one
    read. *)
Definition dict := list (string * value).

(** [d.get(key, default)]. *)
Fixpoint dict_get (d : dict) (key : string) (default : value) : value :=
  match d with
  | [] => default
  | (k, v) :: d' => if String.eqb k key then v else dict_get d' key default
  end.

Definition has_key (d : dict) (key : string) : Prop :=
  exists v, (key, v) ∈ d.

(** The two format specifications of the f-string: [{x}] and [{x:,}]. *)
Inductive format_spec := Plain | Grouped.

(** [str(v)], which is also [format(v, "")]. *)
Definition str (v : value) : string :=
  match v with
  | VNone => "None"
  | VStr s => s
  | VInt n => str_int n
  | VFloat x => float_str x
  end.

Definition format (v : value) (spec : format_spec) : result string :=
  match spec, v with
  | Plain, _ => Return (str v)
  | Grouped, VNone =>
      Raise (TypeError "unsupported format string passed to NoneType.__format__")
  | Grouped, VStr _ => Raise (ValueError "Cannot specify ',' with 's'.")
  | Grouped, VInt n => Return (str_int_grouped n)
  | Grouped, VFloat x => Return (float_grouped x)
  end.

Definition numeric (v : value) : Prop :=
  match v with
  | VInt _ | VFloat _ => True
  | VNone | VStr _ => False
  end.

End Values.

Arguments value : clear implicits.
Arguments dict : clear implicits.

End Value.

(** ** The chat service ([ai_service.py]) *)

Module AIService.
Import Value.

Definition nl : string := String (ascii_of_nat 10) "".

(** The service object: [OLLAMA_HOST] and [OLLAMA_MODEL]. *)
Record AIService := { ollama_host : string; model : string }.

Definition default_service : AIService :=
  {| ollama_host := "http://host.docker.internal:11434"; model := "qwen2.5:0.5b" |}.

Definition system_prompt : string :=
  "You are a helpful stock market assistant. You provide:
1. Clear, accurate information about stocks
2. Analysis of stock performance and trends
3. Explanations of stock market concepts
4. Investment insights (but NOT financial advice)

Always remind users that you're providing information, not financial advice, and they should do their own research or consult a financial advisor.

Be concise but informative. Use the stock data provided to give context-aware answers.".

(** The body of a reply of the inference endpoint, as parsed JSON. *)
#[local] Unset Elimination Schemes.
Inductive json :=
| JNull
| JBool (b : bool)
| JNum (n : Z)
| JStr (s : string)
| JArr (items : list json)
| JObj (fields : list (string * json)).
#[local] Set Elimination Schemes.

(** Python truthiness of a parsed value. *)
Definition truthy (j : json) : bool :=
  match j with
  | JNull => false
  | JBool b => b
  | JNum n => negb (n =? 0)%Z
  | JStr s => negb (String.eqb s "")
  | JArr items => negb (Nat.eqb (length items) 0)
  | JObj fields => negb (Nat.eqb (length fields) 0)
  end.

Definition type_name (j : json) : string :=
  match j with
  | JNull => "NoneType"
  | JBool _ => "bool"
  | JNum _ => "int"
  | JStr _ => "str"
  | JArr _ => "list"
  | JObj _ => "dict"
  end.

Fixpoint fields_get (fields : list (string * json)) (key : string) (default : json) : json :=
  match fields with
  | [] => default
  | (k, v) :: rest => if String.eqb k key then v else fields_get rest key default
  end.

(** [j.get(key, default)]: only a [dict] has the method. *)
Definition json_get (j : json) (key : string) (default : json) : result json :=
  match j with
  | JObj fields => Return (fields_get fields key default)
  | _ => Raise (AttributeError
                  ("'" +:+ type_name j +:+ "' object has no attribute 'get'"))
  end.

(** What [client.post] gives back: the status, the raw text, and what
    [response.json()] does. *)
Record http_response := {
  status_code : nat;
  text : string;
  json_body : result json
}.

Section Chat.

Context {float : Type}.
Variable float_str : float -> string.
Variable float_grouped : float -> string.

Let value := (value float).
Let dict := (dict float).

Record message := Message { role : string; content : value }.

(** The JSON document posted to [/api/chat]; the decoding options are the
    constants of the source (temperature 0.7 as 7 tenths), the timeout is
    that of the client. *)
Record chat_request := {
  url : string;
  req_model : string;
  req_messages : list message;
  stream : bool;
  temperature_tenths : nat;
  num_predict : nat;
  timeout : nat
}.

Definition get (d : dict) (key : string) : value := dict_get d key (VStr "N/A").

(** [if not stock_data] / [if stock_data]: [None] and the empty dict are
    false. *)
Definition present (stock_data : option dict) : option dict :=
  match stock_data with
  | Some (_ :: _) => stock_data
  | _ => None
  end.

Definition fmt (v : value) (spec : format_spec) : result string :=
  format float_str float_grouped v spec.

Definition get_stock_context (stock_data : option dict) : result string :=
  match present stock_data with
  | None => Return ""
  | Some d =>
      symbol ← fmt (get d "symbol") Plain;
      company_name ← fmt (get d "company_name") Plain;
      price ← fmt (get d "price") Plain;
      change_percent ← fmt (get d "change_percent") Plain;
      volume ← fmt (get d "volume") Grouped;
      market_cap ← fmt (get d "market_cap") Grouped;
      day_high ← fmt (get d "day_high") Plain;
      day_low ← fmt (get d "day_low") Plain;
      pe_ratio ← fmt (get d "pe_ratio") Plain;
      beta ← fmt (get d "beta") Plain;
      Return (nl +:+ "Current Stock Information:" +:+ nl
              +:+ "- Symbol: " +:+ symbol +:+ nl
              +:+ "- Company: " +:+ company_name +:+ nl
              +:+ "- Current Price: $" +:+ price +:+ nl
              +:+ "- Change: " +:+ change_percent +:+ "%" +:+ nl
              +:+ "- Volume: " +:+ volume +:+ nl
              +:+ "- Market Cap: $" +:+ market_cap +:+ nl
              +:+ "- Day High: $" +:+ day_high +:+ nl
              +:+ "- Day Low: $" +:+ day_low +:+ nl
              +:+ "- P/E Ratio: " +:+ pe_ratio +:+ nl
              +:+ "- Beta: " +:+ beta +:+ nl)
  end.

(** [chat_history[-5:]]. *)
Definition last_turns (n : nat) (chat_history : list dict) : list dict :=
  drop (length chat_history - n) chat_history.

(** The two messages appended for one turn of the history. *)
Definition turn_messages (msg : dict) : list message :=
  [ Message "user" (dict_get msg "user_message" (VStr ""));
    Message "assistant" (dict_get msg "ai_response" (VStr "")) ].

Definition history_messages (chat_history : option (list dict)) : list message :=
  match chat_history with
  | Some ((_ :: _) as h) => flat_map turn_messages (last_turns 5 h)
  | _ => []
  end.

(** Lines 90 to 102 of [chat]: the message list sent to the model. *)
Definition chat_messages (user_message : string) (stock_data : option dict)
    (chat_history : option (list dict)) : result (list message) :=
  let messages := [Message "system" (VStr system_prompt)] in
  let messages := messages ++ history_messages chat_history in
  current_content ←
    match present stock_data with
    | Some _ =>
        context ← get_stock_context stock_data;
        Return (context +:+ nl +:+ nl +:+ "User Question: " +:+ user_message)
    | None => Return user_message
    end;
  Return (messages ++ [Message "user" (VStr current_content)]).

(** A snapshot without a volume: the one of the module's own demonstration,
    less the volume (and with whole numbers). *)
Definition snapshot_without_volume : dict :=
  [("symbol", VStr "AAPL"); ("company_name", VStr "Apple Inc.");
   ("change_percent", VInt 1); ("market_cap", VInt 2700000000000)].

Definition slow_message : string :=
  "The AI is taking too long to respond. Please try again with a shorter question.".
Definition unreachable_message : string :=
  "Cannot connect to the AI service. Please ensure Ollama is running (brew services start ollama).".
Definition empty_message : string :=
  "I couldn't generate a response. Please try again.".
Definition status_message (self : AIService) : string :=
  "I encountered an error. Please make sure Ollama is running with the model '"
  +:+ model self +:+ "'.".
Definition error_message (e : exn) : string :=
  "I encountered an error processing your request: " +:+ str_exn e.

(** The failures that reach the last handler, [except Exception]. *)
Definition other_failure (e : exn) : Prop :=
  match e with
  | TimeoutException _ | ConnectError _ => False
  | _ => True
  end.

(** The request [chat] posts for a message list. *)
Definition request_for (self : AIService) (messages : list message) : chat_request :=
  {| url := ollama_host self +:+ "/api/chat";
     req_model := model self;
     req_messages := messages;
     stream := false;
     temperature_tenths := 7;
     num_predict := 500;
     timeout := 60 |}.

(** [response.json().get("message", {}).get("content", "")]. *)
Definition generated (response : http_response) : result json :=
  result ← json_body response;
  message ← json_get result "message" (JObj []);
  json_get message "content" (JStr "").

(** The body of the [try]: post the request and read the reply. *)
Definition ask (self : AIService) (post : chat_request -> result http_response)
    (messages : list message) : result json :=
  response ← post (request_for self messages);
  if Nat.eqb (status_code response) 200 then
    ai_response ← generated response;
    Return (if truthy ai_response then ai_response else JStr empty_message)
  else Return (JStr (status_message self)).

(** [AIService.chat]: the message list is built before the [try]; the
    handlers turn every exception of the [try] body into a string. *)
Definition chat (self : AIService) (post : chat_request -> result http_response)
    (user_message : string) (stock_data : option dict)
    (chat_history : option (list dict)) : result json :=
  messages ← chat_messages user_message stock_data chat_history;
  match ask self post messages with
  | Return answer => Return answer
  | Raise (TimeoutException _) => Return (JStr slow_message)
  | Raise (ConnectError _) => Return (JStr unreachable_message)
  | Raise e => Return (JStr (error_message e))
  end.

End Chat.

(** A history of seven turns and a snapshot that renders, for the
    examples. *)
Definition turn (question answer : string) : dict unit :=
  [("user_message", VStr question); ("ai_response", VStr answer)].

Definition seven_turns : list (dict unit) :=
  [turn "q1" "a1"; turn "q2" "a2"; turn "q3" "a3"; turn "q4" "a4";
   turn "q5" "a5"; turn "q6" "a6"; turn "q7" "a7"].

Definition snapshot_with_volume : dict unit :=
  ("volume", VInt 52000000) :: snapshot_without_volume.

End AIService.

(** ** The chat handler of [main.py]: which snapshot is looked up *)

Module ChatHandler.

Record ChatRequest := {
  message : string;
  session_id : string;
  stock_symbol : option string
}.

(** The calls the handler makes while it chooses the snapshot. *)
Inductive call :=
| ExtractSymbol (message : string)
| GetStockData (symbol : string).

Section Lookup.

(** [stock_service.get_stock_data]: the quote provider, a collaborator
    outside this development. *)
Context {snapshot : Type}.
Variable get_stock_data : string -> option snapshot.

(** The first block of [chat]: [if request.stock_symbol] is false for an
    absent and for an empty symbol. *)
Definition chat_stock_data (request : ChatRequest) : list call * option snapshot :=
  match stock_symbol request with
  | Some (String _ _ as symbol) =>
      ([GetStockData (Py.upper symbol)], get_stock_data (Py.upper symbol))
  | _ =>
      match Extract.extract_stock_symbol (message request) with
      | Some extracted_symbol =>
          ([ExtractSymbol (message request); GetStockData extracted_symbol],
           get_stock_data extracted_symbol)
      | None => ([ExtractSymbol (message request)], None)
      end
  end.

End Lookup.

End ChatHandler.

(** ** The realtime broadcaster of [main.py] *)

Module Realtime.

(** A websocket object; two connections are equal only when they are the
    same object. *)
Abbreviation ws := nat.

(** What the environment can raise at a call of the endpoint:
    [WebSocketDisconnect] and the other [Exception]s, and the cancellation
    of the task, which no [except Exception] clause catches. *)
Inductive raised :=
| WebSocketDisconnect
| Exception (detail : string)
| Cancelled.

Inductive outcome (A : Type) :=
| Done (a : A)
| Raised (e : raised).
Arguments Done {A} a.
Arguments Raised {A} e.

Definition tracked_symbols : list string :=
  ["AAPL"; "GOOGL"; "MSFT"; "TSLA"; "AMZN"].

(** [ConnectionManager.connect] after the handshake, and
    [ConnectionManager.disconnect]: [list.append] and [list.remove], which
    drops the first occurrence and raises when there is none. *)
Definition connect (websocket : ws) (active_connections : list ws) : list ws :=
  active_connections ++ [websocket].

Fixpoint remove (websocket : ws) (active_connections : list ws) : option (list ws) :=
  match active_connections with
  | [] => None
  | w :: rest =>
      if decide (w = websocket) then Some rest
      else cons w <$> remove websocket rest
  end.

Definition disconnect (websocket : ws) (active_connections : list ws) : option (list ws) :=
  remove websocket active_connections.

Section Broadcaster.

Context {snapshot : Type}.

(** The frame pushed to the client. *)
Record frame := Frame {
  type : string;
  data : list snapshot;
  timestamp : string
}.

(** What the environment does during one iteration of the loop: the
    state of the connection at the top, the quote provider, the clock,
    the transport at [send_json] and the wake-up of [asyncio.sleep]. *)
Record iteration := {
  client_state : string;
  get_multiple_stocks : list string -> outcome (list snapshot);
  utcnow : string;
  send_json : outcome unit;
  sleep : outcome unit
}.

(** What is done to and for one connection, in order. *)
Inductive action :=
| Accepted
| Registered
| Fetched (symbols : list string)
| Pushed (f : frame)
| PushFailed (f : frame)
| Sleep (seconds : nat)
| Unregistered.

(** Where the task of a connection stands: before the handshake, at the
    top of the loop, suspended in [send_json] or in [asyncio.sleep], and
    ended, after the [finally] block or with a refused handshake. *)
Inductive point :=
| Connecting
| LoopTop
| Sending (f : frame)
| Sleeping
| Closed
| Refused.

Record task := Task {
  pc : point;
  accept : outcome unit;
  script : list iteration;
  log : list action
}.

(** The [finally] block: unregister when (still) registered. *)
Definition finally (websocket : ws) (t : task) (done : list action)
    (active_connections : list ws) : list ws * task :=
  match (if decide (websocket ∈ active_connections)
         then disconnect websocket active_connections else None) with
  | Some remaining =>
      (remaining, Task Closed (accept t) (script t) (log t ++ done ++ [Unregistered]))
  | None =>
      (active_connections, Task Closed (accept t) (script t) (log t ++ done))
  end.

(** One atomic stretch of [websocket_endpoint], from where the task is
    suspended to its next suspension. *)
Definition step_task (websocket : ws) (t : task) (active_connections : list ws)
    : list ws * task :=
  match pc t with
  | Connecting =>
      match accept t with
      | Done _ =>
          (connect websocket active_connections,
           Task LoopTop (accept t) (script t) (log t ++ [Accepted; Registered]))
      | Raised _ => (active_connections, Task Refused (accept t) (script t) (log t))
      end
  | LoopTop =>
      match script t with
      | [] => (active_connections, t)
      | it :: _ =>
          if decide (client_state it = "CONNECTED") then
            match get_multiple_stocks it tracked_symbols with
            | Done stocks_data =>
                (active_connections,
                 Task (Sending (Frame "stock_update" stocks_data (utcnow it)))
                      (accept t) (script t) (log t ++ [Fetched tracked_symbols]))
            | Raised _ => finally websocket t [Fetched tracked_symbols] active_connections
            end
          else finally websocket t [] active_connections
      end
  | Sending f =>
      match script t with
      | [] => (active_connections, t)
      | it :: _ =>
          match send_json it with
          | Done _ =>
              (active_connections,
               Task Sleeping (accept t) (script t) (log t ++ [Pushed f; Sleep 30]))
          | Raised _ => finally websocket t [PushFailed f] active_connections
          end
      end
  | Sleeping =>
      match script t with
      | [] => (active_connections, t)
      | it :: rest =>
          match sleep it with
          | Done _ => (active_connections, Task LoopTop (accept t) rest (log t))
          | Raised _ => finally websocket t [] active_connections
          end
      end
  | Closed | Refused => (active_connections, t)
  end.

(** The server: the registry shared by all tasks, and the tasks. *)
Record server := Server {
  active_connections : list ws;
  tasks : gmap ws task
}.

(** The scheduler resumes the task of [websocket]. *)
Definition step (websocket : ws) (s : server) : server :=
  match tasks s !! websocket with
  | None => s
  | Some t =>
      let '(registry, t') := step_task websocket t (active_connections s) in
      Server registry (<[websocket := t']> (tasks s))
  end.

Fixpoint run (schedule : list ws) (s : server) : server :=
  match schedule with
  | [] => s
  | websocket :: later => run later (step websocket s)
  end.

(** The server before any task ran: every client is about to connect,
    with what its environment will do. *)
Definition new_task (env : outcome unit * list iteration) : task :=
  Task Connecting (fst env) (snd env) [].

Definition start (clients : gmap ws (outcome unit * list iteration)) : server :=
  Server [] (new_task <$> clients).

(** The connections whose task still runs the loop. *)
Definition live (p : point) : Prop :=
  match p with
  | LoopTop | Sending _ | Sleeping => True
  | Connecting | Closed | Refused => False
  end.

#[global] Instance live_dec p : Decision (live p).
Proof. destruct p; simpl; apply _. Defined.

Definition is_unregistered (a : action) : Prop :=
  match a with
  | Unregistered => True
  | _ => False
  end.

#[global] Instance is_unregistered_dec a : Decision (is_unregistered a).
Proof. destruct a; simpl; apply _. Defined.

(** How many times the log of a connection records its unregistration. *)
Definition unregistrations (l : list action) : nat :=
  length (filter is_unregistered l).

(** An iteration that ran to its end: the connection was open and the
    fetch, the push and the sleep all completed. *)
Definition completed (it : iteration) : Prop :=
  client_state it = "CONNECTED" /\
  (exists stocks_data, get_multiple_stocks it tracked_symbols = Done stocks_data) /\
  send_json it = Done tt /\
  sleep it = Done tt.

(** The frame of an iteration, and what a completed iteration leaves in the
    log. *)
Definition frame_of (it : iteration) : frame :=
  Frame "stock_update"
    (match get_multiple_stocks it tracked_symbols with
     | Done stocks_data => stocks_data
     | Raised _ => []
     end)
    (utcnow it).

Definition round (it : iteration) : list action :=
  [Fetched tracked_symbols; Pushed (frame_of it); Sleep 30].

(** The connection was open at the top of the iteration and the fetch
    returned. *)
Definition fetched_ok (it : iteration) : Prop :=
  client_state it = "CONNECTED" /\
  exists stocks_data, get_multiple_stocks it tracked_symbols = Done stocks_data.

(** What the iteration under way, or the one that ended the loop, leaves in
    the log, for a task at a given point whose script starts with that
    iteration. *)
Inductive last_round : list iteration -> point -> list action -> Prop :=
| at_top script : last_round script LoopTop []
| fetched it rest :
    fetched_ok it ->
    last_round (it :: rest) (Sending (frame_of it)) [Fetched tracked_symbols]
| pushed it rest :
    fetched_ok it -> send_json it = Done tt ->
    last_round (it :: rest) Sleeping (round it)
| closed_at_check it rest :
    client_state it <> "CONNECTED" ->
    last_round (it :: rest) Closed [Unregistered]
| fetch_failed it rest e :
    client_state it = "CONNECTED" ->
    get_multiple_stocks it tracked_symbols = Raised e ->
    last_round (it :: rest) Closed [Fetched tracked_symbols; Unregistered]
| push_failed it rest e :
    fetched_ok it -> send_json it = Raised e ->
    last_round (it :: rest) Closed
      [Fetched tracked_symbols; PushFailed (frame_of it); Unregistered]
| sleep_interrupted it rest e :
    fetched_ok it -> send_json it = Done tt -> sleep it = Raised e ->
    last_round (it :: rest) Closed (round it ++ [Unregistered]).

(** The log of the connection of a client whose environment plays
    [script0]: nothing before the handshake; then the registration, one
    round per iteration of the script already played, each of them
    completed, and the last round, of the iteration the script is at. *)
Definition shaped (script0 : list iteration) (t : task) : Prop :=
  match pc t with
  | Connecting => log t = [] /\ script t = script0
  | Refused => log t = []
  | p => exists done tail,
      script0 = done ++ script t /\
      log t = [Accepted; Registered] ++ flat_map round done ++ tail /\
      Forall completed done /\
      last_round (script t) p tail
  end.

(** The registry holds each running connection once, and nothing else. *)
Definition registry_ok (s : server) : Prop :=
  NoDup (active_connections s) /\
  forall c, c ∈ active_connections s <-> exists t, tasks s !! c = Some t /\ live (pc t).

(** What holds of every server reached from [start clients]. *)
Definition invariant (clients : gmap ws (outcome unit * list iteration))
    (s : server) : Prop :=
  registry_ok s /\
  forall c t, tasks s !! c = Some t ->
    exists env, clients !! c = Some env /\ shaped (snd env) t.

(** How often the scheduler resumes a connection in a schedule. *)
Definition turns (c : ws) (schedule : list ws) : nat :=
  length (filter (fun x => x = c) schedule).

(** The step of a task that is the only connection of the server. *)
Definition alone (t : task) : task :=
  snd (step_task 0 t (if decide (live (pc t)) then [0] else [])).

(** The frames pushed to a connection, in the order of the pushes. *)
Definition pushed_frames (l : list action) : list frame :=
  flat_map (fun a => match a with Pushed f => [f] | _ => [] end) l.

(** The task of a connection whose handshake succeeded, once its loop has
    ended in the iteration [it] that follows the completed iterations
    [done]; [tail] is what that last iteration left in the log. *)
Definition ended (done : list iteration) (it : iteration) (rest : list iteration)
    (tail : list action) : task :=
  Task Closed (Done tt) (it :: rest)
    ([Accepted; Registered] ++ flat_map round done ++ tail).

(** What one step of a task does to the task and to the registry, when the
    registry has no duplicates and holds the connection exactly while its
    task runs the loop. *)
Record step_ok (script0 : list iteration) (c : ws) (t : task) (registry : list ws)
    (registry' : list ws) (t' : task) : Prop := {
  step_shaped : shaped script0 t';
  step_nodup : NoDup registry';
  step_self : c ∈ registry' <-> live (pc t');
  step_others : forall x, x <> c -> (x ∈ registry' <-> x ∈ registry)
}.

End Broadcaster.

(** A scenario with two clients, snapshots being plain symbols: the push to
    client 1 fails in its first iteration; client 2 is served twice. *)
Definition served (now : string) : @iteration string :=
  {| client_state := "CONNECTED";
     get_multiple_stocks := fun symbols => Done symbols;
     utcnow := now;
     send_json := Done tt;
     sleep := Done tt |}.

Definition broken_pipe (now : string) : @iteration string :=
  {| client_state := "CONNECTED";
     get_multiple_stocks := fun symbols => Done symbols;
     utcnow := now;
     send_json := Raised (Exception "broken pipe");
     sleep := Done tt |}.

Definition two_clients : gmap ws (outcome unit * list (@iteration string)) :=
  <[1 := (Done tt, [broken_pipe "t0"])]>
    (<[2 := (Done tt, [served "t0"; served "t1"])]> ∅).

Definition interleaved : list ws := [1; 2; 1; 2; 1; 2; 2; 2; 2; 1; 2].

Definition first_closed : @task string :=
  Task Closed (Done tt) [broken_pipe "t0"]
    [Accepted; Registered; Fetched tracked_symbols;
     PushFailed (frame_of (broken_pipe "t0")); Unregistered].

Definition second_served : @task string :=
  Task LoopTop (Done tt) []
    ([Accepted; Registered] ++ round (served "t0") ++ round (served "t1")).

(** A third client: its second fetch fails, the quote provider being down. *)
Definition provider_down (now : string) : @iteration string :=
  {| client_state := "CONNECTED";
     get_multiple_stocks := fun _ => Raised (Exception "provider down");
     utcnow := now;
     send_json := Done tt;
     sleep := Done tt |}.

Definition three_clients : gmap ws (outcome unit * list (@iteration string)) :=
  <[3 := (Done tt, [served "t0"; provider_down "t1"; served "t2"])]> two_clients.

End Realtime.

(** ** The symbols of a batch request ([get_batch_stocks]) *)

Module Batch.

(** [c.isspace()] on an ASCII character: tab to carriage return, the four
    separators 28 to 31, and the space. *)
Definition is_space (c : ascii) : bool :=
  let n := nat_of_ascii c in
  ((9 <=? n)%nat && (n <=? 13)%nat) || ((28 <=? n)%nat && (n <=? 31)%nat) || (n =? 32)%nat.

(** [s.lstrip()], [s.rstrip()] and [s.strip()]. *)
Fixpoint lstrip (s : string) : string :=
  match s with
  | EmptyString => EmptyString
  | String c s' => if is_space c then lstrip s' else s
  end.

Fixpoint rstrip (s : string) : string :=
  match s with
  | EmptyString => EmptyString
  | String c s' =>
      match rstrip s' with
      | EmptyString => if is_space c then EmptyString else String c EmptyString
      | t => String c t
      end
  end.

Definition strip (s : string) : string := rstrip (lstrip s).

(** [s.split(sep)] for a separator of one character: one piece more than
    there are separators, empty pieces included. *)
Fixpoint split (sep : ascii) (s : string) : list string :=
  match s with
  | EmptyString => [EmptyString]
  | String c s' =>
      if Ascii.eqb c sep then EmptyString :: split sep s'
      else match split sep s' with
           | piece :: pieces => String c piece :: pieces
           | [] => [String c EmptyString]
           end
  end.

(** [sep.join(pieces)]. *)
Fixpoint join (sep : string) (pieces : list string) : string :=
  match pieces with
  | [] => EmptyString
  | [piece] => piece
  | piece :: rest => piece +:+ sep +:+ join sep rest
  end.

(** [[s.strip().upper() for s in symbols.split(",") if s.strip()]]. *)
Definition symbol_list (symbols : string) : list string :=
  map (fun s => Py.upper (strip s))
      (filter (fun s => strip s <> EmptyString) (split ","%char symbols)).

(** The characters of a string. *)
Fixpoint chars (s : string) : list ascii :=
  match s with
  | EmptyString => []
  | String c s' => c :: chars s'
  end.

(** A symbol as the batch endpoint hands it to the quote provider. *)
Definition canonical (s : string) : Prop :=
  s <> EmptyString /\ Py.upper s = s /\ strip s = s /\ ","%char ∉ chars s.

End Batch.

(** ** Reading the watchlist ([get_watchlist]) *)

Module WatchlistView.
Import Watchlist.

(** [[item.symbol for item in watchlist_items]] for the rows of a user. *)
Definition symbols_of (user : string) (db : list row) : list string :=
  map symbol (filter (fun r => user_id r = user) db).

(** The user a request acts for. *)
Definition request_user (q : request) : string :=
  match q with
  | Post item => item_user_id item
  | Delete _ user => user
  end.

Section View.

(** [stock_service.get_multiple_stocks]: the quote provider, a collaborator
    outside this development. *)
Context {snapshot : Type}.
Variable get_multiple_stocks : list string -> list snapshot.

Record watchlist_response := {
  response_user_id : string;
  stocks : list snapshot
}.

(** [get_watchlist]: the symbols it asks the quote provider for (none when
    the user has no row) and its answer. *)
Definition get_watchlist (user : string) (db : list row)
    : option (list string) * watchlist_response :=
  let symbols := symbols_of user db in
  match symbols with
  | [] => (None, {| response_user_id := user; stocks := [] |})
  | _ :: _ =>
      (Some symbols,
       {| response_user_id := user; stocks := get_multiple_stocks symbols |})
  end.

End View.

End WatchlistView.

(** ** The availability probe ([AIService._check_availability]) *)

Module Probe.
Import Value AIService.

(** What the probe prints: the model is taken as available, the model is
    not among the listed ones, the endpoint answered with another status
    than 200, or the probe failed with an exception. *)
Inductive notice :=
| Initialized (model : string)
| ModelNotFound (model : string) (model_names : list string)
| NotResponding
| CouldNotConnect (host : string) (e : exn).

(** [s.split(":")[0]]. *)
Definition before_colon (s : string) : string :=
  hd EmptyString (Batch.split ":"%char s).

(** [for m in j]: the items of a list, the keys of a dict (kept without
    repetition in [JObj]), the characters of a string; nothing else can be
    iterated. *)
Definition iterate (j : json) : result (list json) :=
  match j with
  | JArr items => Return items
  | JObj fields => Return (map (fun kv => JStr (fst kv)) fields)
  | JStr s => Return (map (fun c => JStr (String c EmptyString)) (Batch.chars s))
  | _ => Raise (TypeError ("'" +:+ type_name j +:+ "' object is not iterable"))
  end.

(** [name.split(":")[0]] for whatever [m.get("name", "")] gave: only a
    string has the method. *)
Definition base_name (name : json) : result string :=
  match name with
  | JStr s => Return (before_colon s)
  | _ => Raise (AttributeError
                  ("'" +:+ type_name name +:+ "' object has no attribute 'split'"))
  end.

(** [[m.get("name", "").split(":")[0] for m in models]]. *)
Fixpoint model_names (models : list json) : result (list string) :=
  match models with
  | [] => Return []
  | m :: rest =>
      name ← json_get m "name" (JStr EmptyString);
      base ← base_name name;
      names ← model_names rest;
      Return (base :: names)
  end.

(** The body of the [try] for a reply with status 200. *)
Definition listed (self : AIService) (response : http_response) : result notice :=
  result ← json_body response;
  models ← json_get result "models" (JArr []);
  items ← iterate models;
  names ← model_names items;
  let model_base := before_colon (model self) in
  if existsb (fun name => Py.contains model_base name) names || truthy models
  then Return (Initialized (model self))
  else Return (ModelNotFound (model self) names).

(** [_check_availability], run by [__init__] with [available] false: the
    value [available] has afterwards, and what is printed.  [get] is
    [httpx.get] with its address and its timeout. *)
Definition check_availability (self : AIService)
    (get : string -> nat -> result http_response) : bool * notice :=
  match get (ollama_host self +:+ "/api/tags") 5 with
  | Raise e => (false, CouldNotConnect (ollama_host self) e)
  | Return response =>
      if Nat.eqb (status_code response) 200 then
        match listed self response with
        | Return printed => (true, printed)
        | Raise e => (false, CouldNotConnect (ollama_host self) e)
        end
      else (false, NotResponding)
  end.

End Probe.

(** ** The chat endpoint of [main.py], whole *)

Module ChatEndpoint.
Import Value AIService ChatHandler.

(** [d[key]]: a missing key raises [KeyError], whose text is the key in
    quotes. *)
Fixpoint item {float : Type} (d : dict float) (key : string) : result (value float) :=
  match d with
  | [] => Raise (OtherError ("'" +:+ key +:+ "'"))
  | (k, v) :: d' => if String.eqb k key then Return v else item d' key
  end.

Section Endpoint.

Context {float : Type}.
Variable float_str : float -> string.
Variable float_grouped : float -> string.

(** The collaborators: the quote provider, the service object and the
    inference endpoint it posts to. *)
Variable get_stock_data : string -> option (dict float).
Variable self : AIService.
Variable post : chat_request (float := float) -> result http_response.

(** A row of the [ChatHistory] table.  The table is the list of its rows in
    the order of their creation, which is the order of [created_at]. *)
Record ChatHistory := Turn {
  turn_session_id : string;
  turn_user_message : string;
  turn_ai_response : json;
  turn_stock_symbol : option (value float)
}.

(** [ChatHistory.to_dict], declared in the database module. *)
Variable to_dict : ChatHistory -> dict float.

Record ChatResponse := {
  response : json;
  response_stock_data : option (dict float);
  timestamp : string
}.

(** The rows of a session, oldest first. *)
Definition session_turns (session : string) (db : list ChatHistory) : list ChatHistory :=
  filter (fun h => turn_session_id h = session) db.

(** [.order_by(ChatHistory.created_at.desc()).limit(5).all()]. *)
Definition recent (session : string) (db : list ChatHistory) : list ChatHistory :=
  take 5 (reverse (session_turns session db)).

(** [[h.to_dict() for h in reversed(history)]]. *)
Definition history_list (session : string) (db : list ChatHistory) : list (dict float) :=
  map to_dict (reverse (recent session db)).

(** [stock_data['symbol'] if stock_data else None]. *)
Definition symbol_of (stock_data : option (dict float)) : result (option (value float)) :=
  match present stock_data with
  | Some d => symbol ← item d "symbol"; Return (Some symbol)
  | None => Return None
  end.

(** [ChatResponse(response=..., stock_data=..., timestamp=...)]: the field
    [response] is declared [str], and the validation of the model refuses a
    value that is not a string. *)
Definition validation_error : exn :=
  ValueError "1 validation error for ChatResponse".

Definition new_response (ai_response : json) (stock_data : option (dict float))
    (now : string) : result ChatResponse :=
  match ai_response with
  | JStr _ =>
      Return {| response := ai_response;
                response_stock_data := stock_data;
                timestamp := now |}
  | _ => Raise validation_error
  end.

(** [POST /api/chat]: what the client gets, the answer or an exception, and
    the table afterwards; [now] is the clock read for the time stamp.  The
    row is committed before the answer is built, so an exception of the
    validation leaves the new row in the table; an exception before the
    commit leaves the table as it was. *)
Definition chat_endpoint (now : string) (request : ChatRequest) (db : list ChatHistory)
    : result ChatResponse * list ChatHistory :=
  let stock_data := snd (chat_stock_data get_stock_data request) in
  let history := history_list (session_id request) db in
  match (ai_response ← chat float_str float_grouped self post
                          (message request) stock_data (Some history);
         stock_symbol ← symbol_of stock_data;
         Return (ai_response, stock_symbol)) with
  | Raise e => (Raise e, db)
  | Return (ai_response, stock_symbol) =>
      let chat_record :=
        Turn (session_id request) (message request) ai_response stock_symbol in
      (new_response ai_response stock_data now, db ++ [chat_record])
  end.

(** What the client sees of a call: the answer, or the exception. *)
Definition seen (r : result ChatResponse * list ChatHistory) : result ChatResponse :=
  fst r.

(** [GET /api/chat/history/{session_id}]. *)
Definition get_chat_history (session : string) (db : list ChatHistory) : list (dict float) :=
  map to_dict (session_turns session db).

End Endpoint.

(** Two tables for the examples: seven rows with six turns of session s1,
    and six rows with five; the last five turns of s1 are the same in
    both. *)
Definition asked (session question : string) : ChatHistory (float := unit) :=
  Turn session question (JStr "ok") None.

Definition long_table : list (ChatHistory (float := unit)) :=
  [asked "s1" "q1"; asked "s2" "x"; asked "s1" "q2"; asked "s1" "q3";
   asked "s1" "q4"; asked "s1" "q5"; asked "s1" "q6"].

Definition short_table : list (ChatHistory (float := unit)) :=
  [asked "s1" "q2"; asked "s1" "q3"; asked "s3" "y"; asked "s1" "q4";
   asked "s1" "q5"; asked "s1" "q6"].

Definition question_only (h : ChatHistory (float := unit)) : dict unit :=
  [("user_message", VStr (turn_user_message h))].

(** An inference endpoint that answers with the text of the oldest turn it
    was sent, and one that answers with a list. *)
Definition echo_oldest (request : chat_request (float := unit)) : result http_response :=
  let oldest :=
    match req_messages request with
    | _ :: {| content := VStr text |} :: _ => text
    | _ => "nothing"
    end in
  Return {| status_code := 200; text := "";
            json_body := Return (JObj [("message", JObj [("content", JStr oldest)])]) |}.


End ChatEndpoint.

(** ** The market indices endpoint ([get_market_indices]) *)

Module Indices.
Import Value.

Definition indices : list string := ["^GSPC"; "^DJI"; "^IXIC"; "^VIX"].

Definition name_map : list (string * string) :=
  [("^GSPC", "S&P 500"); ("^DJI", "Dow Jones"); ("^IXIC", "NASDAQ"); ("^VIX", "VIX")].

(** [name_map[symbol]] when [symbol in name_map]. *)
Fixpoint friendly (names : list (string * string)) (symbol : string) : option string :=
  match names with
  | [] => None
  | (k, name) :: rest => if String.eqb k symbol then Some name else friendly rest symbol
  end.

Section Items.

Context {float : Type}.

(** [d[key] = v]: the binding of the key is replaced where it stands, a new
    key goes to the end. *)
Fixpoint dict_set (d : dict float) (key : string) (v : value float) : dict float :=
  match d with
  | [] => [(key, v)]
  | (k, w) :: d' =>
      if String.eqb k key then (k, v) :: d' else (k, w) :: dict_set d' key v
  end.

(** The body of the loop for one item: [item['symbol']] raises on a missing
    key; only a string can be a key of [name_map]. *)
Definition label (item : dict float) : result (dict float) :=
  symbol ← ChatEndpoint.item item "symbol";
  match symbol with
  | VStr s =>
      match friendly name_map s with
      | Some name => Return (dict_set item "display_name" (VStr name))
      | None => Return item
      end
  | _ => Return item
  end.

(** [for item in indices_data: ...]. *)
Fixpoint label_all (indices_data : list (dict float)) : result (list (dict float)) :=
  match indices_data with
  | [] => Return []
  | item :: rest =>
      item' ← label item;
      rest' ← label_all rest;
      Return (item' :: rest')
  end.

Record indices_response := {
  response_indices : list (dict float);
  response_timestamp : string
}.

(** [get_market_indices], with the quote provider and the clock. *)
Definition get_market_indices
    (get_multiple_stocks : list string -> list (dict float)) (now : string)
    : result indices_response :=
  let indices_data := get_multiple_stocks indices in
  labelled ← label_all indices_data;
  Return {| response_indices := labelled; response_timestamp := now |}.

End Items.

End Indices.

(** * Properties stated by the specification *)

(** ** Symbol extraction *)

Section ExtractProperties.

Import Unicode.

Variable upper_char : N -> str.
Hypothesis upper_char_ascii : forall c, (c < 128)%N -> upper_char c = [upper_ascii c].

Lemma symbol_nocase (user_message symbol : str) :
  is_ascii user_message -> symbol ∈ common_symbols ->
  occurs symbol (upper upper_char user_message) <->
  occurs_nocase upper_char symbol user_message.
Proof.
  intros Hm Hin.
  destruct (proj1 (Forall_forall _ _) symbols_ascii symbol Hin) as [Ha Hu].
  now apply occurs_upper_ascii.
Qed.

Lemma literal_upper (text : string) :
  is_ascii (of_string text) ->
  extract_stock_symbol upper_char (of_string text) =
  scan common_symbols (upper_ascii <$> of_string text).
Proof.
  intros H. unfold extract_stock_symbol. now rewrite (upper_ascii_text upper_char upper_char_ascii).
Qed.

(** C8, amended. Symbol extraction returns the first symbol of the
    allow-list, in the order of the list, that occurs in the upper-cased
    message, and returns nothing exactly when no symbol of the list occurs
    in it.  For a message of ASCII characters this is the first symbol of
    the list that occurs in the message up to letter case.  The message
    "How is V doing today" gives "V", and "how is aapl doing" gives
    "AAPL". *)
Theorem extract_stock_symbol_first_match (user_message : str) :
  (forall symbol,
     extract_stock_symbol upper_char user_message = Some symbol <->
     exists before after,
       common_symbols = before ++ symbol :: after /\
       occurs symbol (upper upper_char user_message) /\
       Forall (fun earlier => ~ occurs earlier (upper upper_char user_message)) before) /\
  (extract_stock_symbol upper_char user_message = None <->
     Forall (fun symbol => ~ occurs symbol (upper upper_char user_message)) common_symbols) /\
  (is_ascii user_message ->
     (forall symbol,
        extract_stock_symbol upper_char user_message = Some symbol <->
        exists before after,
          common_symbols = before ++ symbol :: after /\
          occurs_nocase upper_char symbol user_message /\
          Forall (fun earlier => ~ occurs_nocase upper_char earlier user_message) before) /\
     (extract_stock_symbol upper_char user_message = None <->
        Forall (fun symbol => ~ occurs_nocase upper_char symbol user_message)
               common_symbols)) /\
  extract_stock_symbol upper_char (of_string "How is V doing today") = Some (of_string "V") /\
  extract_stock_symbol upper_char (of_string "how is aapl doing") = Some (of_string "AAPL").
Proof.
  split; [|split; [|split; [|split]]].
  - intros symbol. apply scan_first.
  - apply scan_nothing.
  - intros Hm. split.
    + intros symbol. unfold extract_stock_symbol. cbv zeta. rewrite scan_first. split.
      * intros (before & after & Heq & Hs & Hb). exists before, after.
        split; [exact Heq|]. split.
        -- apply symbol_nocase; [exact Hm | | exact Hs].
           rewrite Heq. apply elem_of_app. right. left.
        -- apply Forall_forall. intros earlier Hin Ho.
           apply (proj1 (Forall_forall _ _) Hb earlier Hin).
           apply symbol_nocase; [exact Hm | | exact Ho].
           rewrite Heq. apply elem_of_app. now left.
      * intros (before & after & Heq & Hs & Hb). exists before, after.
        split; [exact Heq|]. split.
        -- apply symbol_nocase; [exact Hm | | exact Hs].
           rewrite Heq. apply elem_of_app. right. left.
        -- apply Forall_forall. intros earlier Hin Ho.
           apply (proj1 (Forall_forall _ _) Hb earlier Hin).
           apply symbol_nocase; [exact Hm | | exact Ho].
           rewrite Heq. apply elem_of_app. now left.
    + unfold extract_stock_symbol. cbv zeta. rewrite scan_nothing.
      split; intros H; apply Forall_forall; intros symbol Hin Ho;
        apply (proj1 (Forall_forall _ _) H symbol Hin);
        apply (symbol_nocase user_message symbol Hm Hin); exact Ho.
  - rewrite literal_upper; [reflexivity | repeat constructor].
  - rewrite literal_upper; [reflexivity | repeat constructor].
Qed.

(** On a message of ASCII characters the extraction on code points is the
    extraction on byte strings of module [Extract], which the chat handler
    properties below are stated with. *)
Lemma of_string_upper_ascii (c : ascii) :
  upper_ascii (N_of_ascii c) = N_of_ascii (Py.upper_ascii c).
Proof. destruct c as [[] [] [] [] [] [] [] []]; reflexivity. Qed.

Lemma of_string_upper (s : string) :
  upper_ascii <$> of_string s = of_string (Py.upper s).
Proof.
  unfold of_string. induction s as [|c s IH]; [reflexivity|].
  cbn [list_ascii_of_string Py.upper fmap list_fmap]. rewrite of_string_upper_ascii.
  f_equal. exact IH.
Qed.

Lemma of_string_startswith (p : string) : forall s,
  startswith (of_string p) (of_string s) = Py.startswith p s.
Proof.
  unfold of_string. induction p as [|a p IH]; intros s; [reflexivity|].
  destruct s as [|b s]; [reflexivity|].
  cbn [list_ascii_of_string fmap list_fmap startswith Py.startswith]. rewrite IH. f_equal.
  destruct (Ascii.eqb a b) eqn:E.
  - apply Ascii.eqb_eq in E. subst b. apply N.eqb_refl.
  - apply N.eqb_neq. intros H. apply (f_equal ascii_of_N) in H.
    rewrite !ascii_N_embedding in H. subst b. rewrite Ascii.eqb_refl in E. discriminate.
Qed.

Lemma of_string_contains (p s : string) :
  contains (of_string p) (of_string s) = Py.contains p s.
Proof.
  induction s as [|b s IH].
  - cbn [contains Py.contains]. now rewrite <- (of_string_startswith p "").
  - change (of_string (String b s)) with (N_of_ascii b :: of_string s).
    cbn [contains Py.contains]. rewrite IH.
    change (N_of_ascii b :: of_string s) with (of_string (String b s)).
    now rewrite of_string_startswith.
Qed.

Lemma of_string_scan (symbols : list string) (message_upper : string) :
  scan (of_string <$> symbols) (of_string message_upper) =
  of_string <$> Extract.scan symbols message_upper.
Proof.
  induction symbols as [|symbol symbols IH]; [reflexivity|].
  cbn [fmap list_fmap scan Extract.scan]. rewrite of_string_contains.
  destruct (Py.contains symbol message_upper); [reflexivity | exact IH].
Qed.

Lemma extract_stock_symbol_ascii (user_message : string) :
  is_ascii (of_string user_message) ->
  extract_stock_symbol upper_char (of_string user_message) =
  of_string <$> Extract.extract_stock_symbol user_message.
Proof.
  intros Ha. unfold extract_stock_symbol, Extract.extract_stock_symbol. cbv zeta.
  rewrite (upper_ascii_text upper_char upper_char_ascii _ Ha), of_string_upper.
  apply of_string_scan.
Qed.

End ExtractProperties.

Lemma upper_sample_ascii c : (c < 128)%N -> Unicode.upper_sample c = [Unicode.upper_ascii c].
Proof. intros H. unfold Unicode.upper_sample. apply N.ltb_lt in H. now rewrite H. Qed.

Lemma extract_stock_symbol_first_match_witness :
  Unicode.extract_stock_symbol Unicode.upper_sample (Unicode.of_string "how is aapl doing") =
    Some (Unicode.of_string "AAPL") /\
  (Unicode.extract_stock_symbol Unicode.upper_sample
     (Unicode.of_string "which is cheaper, msft or googl?") = Some (Unicode.of_string "GOOGL") <->
   exists before after,
     Unicode.common_symbols = before ++ Unicode.of_string "GOOGL" :: after /\
     Unicode.occurs_nocase Unicode.upper_sample (Unicode.of_string "GOOGL")
       (Unicode.of_string "which is cheaper, msft or googl?") /\
     Forall (fun earlier =>
               ~ Unicode.occurs_nocase Unicode.upper_sample earlier
                   (Unicode.of_string "which is cheaper, msft or googl?")) before).
Proof.
  split.
  - apply (proj2 (proj2 (proj2 (proj2
      (extract_stock_symbol_first_match Unicode.upper_sample upper_sample_ascii []))))).
  - apply (proj1 (proj2 (proj2
      (extract_stock_symbol_first_match Unicode.upper_sample upper_sample_ascii
         (Unicode.of_string "which is cheaper, msft or googl?"))))).
    repeat constructor.
Defined.

(** C8, counterexample to the statement as the specification has it: the
    message U+0149 v d a has no stretch that is NVDA up to letter case, and
    has one that is V; its upper-case form is U+02BC N V D A, and the
    answer is NVDA. *)
Lemma extract_stock_symbol_multichar_upper :
  Unicode.extract_stock_symbol Unicode.upper_sample [0x149; 0x76; 0x64; 0x61]%N =
    Some (Unicode.of_string "NVDA") /\
  ~ Unicode.occurs_nocase Unicode.upper_sample (Unicode.of_string "NVDA")
      [0x149; 0x76; 0x64; 0x61]%N /\
  Unicode.occurs_nocase Unicode.upper_sample (Unicode.of_string "V")
      [0x149; 0x76; 0x64; 0x61]%N.
Proof.
  split; [reflexivity|]. split.
  - intros (pre & w & post & Heq & Hw).
    apply Unicode.stretches_spec in Heq.
    vm_compute in Heq.
    repeat (apply elem_of_cons in Heq as [->|Heq]; [vm_compute in Hw; discriminate|]).
    now apply elem_of_nil in Heq.
  - exists [0x149]%N, [0x76]%N, [0x64; 0x61]%N. split; reflexivity.
Qed.

(** ** Watchlist *)

Lemma query_first_rows u s db p :
  Watchlist.query_first u s db = Some p ->
  1 <= length (Watchlist.rows_for u s db).
Proof.
  intros H. destruct (Watchlist.rows_for u s db) eqn:E; simpl; [|lia].
  apply Watchlist.query_first_None in E. congruence.
Qed.

Lemma rows_for_delete_found u s (db : list Watchlist.row) :
  forall i r, db !! i = Some r -> Watchlist.row_is u s r ->
  length (Watchlist.rows_for u s (delete i db)) + 1 = length (Watchlist.rows_for u s db).
Proof.
  unfold Watchlist.rows_for. induction db as [|x db IH]; intros i r Hi Hr.
  - destruct i; discriminate.
  - rewrite filter_cons. destruct i as [|i].
    + change (delete 0 (x :: db)) with db. simpl in Hi. injection Hi as ->.
      rewrite decide_True by assumption. simpl. lia.
    + change (delete (S i) (x :: db)) with (x :: delete i db).
      rewrite filter_cons. specialize (IH i r Hi Hr).
      destruct (decide _); simpl; lia.
Qed.

Lemma stored_rows u s db :
  Watchlist.stored u s db <-> 1 <= length (Watchlist.rows_for u (Py.upper s) db).
Proof.
  split.
  - intros Hs. destruct (Watchlist.query_first u (Py.upper s) db) eqn:E.
    + eapply query_first_rows; eauto.
    + apply Watchlist.query_first_None_stored in E. contradiction.
  - intros Hl. destruct (Watchlist.rows_for u (Py.upper s) db) as [|r l] eqn:E;
      simpl in Hl; [lia|].
    assert (Hr : r ∈ Watchlist.rows_for u (Py.upper s) db) by (rewrite E; left).
    apply list_elem_of_filter in Hr as [Hr Hin]. exists r. auto.
Qed.

(** C6. Posting the same pair twice leaves exactly one row for the pair (in
    its canonical upper-case form), the second post is answered 400 and
    changes nothing; after any sequence of requests no pair has two rows. *)
Theorem watchlist_add_twice (qs : list Watchlist.request) (item : Watchlist.WatchlistItem) :
  let db := Watchlist.serve qs [] in
  let first := Watchlist.add_to_watchlist item db in
  let second := Watchlist.add_to_watchlist item (snd first) in
  fst second = Watchlist.HTTPException 400 "Stock already in watchlist" /\
  snd second = snd first /\
  length (Watchlist.rows_for (Watchlist.item_user_id item)
            (Py.upper (Watchlist.item_symbol item)) (snd second)) = 1 /\
  forall u s, length (Watchlist.rows_for u s db) <= 1.
Proof.
  intros db first second.
  assert (Hu : Watchlist.unique_pairs db).
  { apply Watchlist.serve_unique. intros u s. simpl. lia. }
  set (u := Watchlist.item_user_id item) in *.
  set (s := Py.upper (Watchlist.item_symbol item)) in *.
  assert (Hsnoc : Watchlist.query_first u s db = None ->
                  Watchlist.rows_for u s (db ++ [Watchlist.Row u s]) = [Watchlist.Row u s]).
  { intros E. apply Watchlist.query_first_None in E.
    rewrite Watchlist.rows_for_snoc, E.
    now rewrite decide_True by (split; reflexivity). }
  subst first second. unfold Watchlist.add_to_watchlist. fold u s.
  destruct (Watchlist.query_first u s db) as [p|] eqn:E; cbn [fst snd].
  - rewrite E. cbn [fst snd]. repeat split; auto.
    pose proof (query_first_rows _ _ _ _ E). specialize (Hu u s). lia.
  - specialize (Hsnoc eq_refl).
    destruct (Watchlist.query_first u s (db ++ _)) as [p|] eqn:E2; cbn [fst snd].
    + rewrite Hsnoc. repeat split; auto.
    + apply Watchlist.query_first_None in E2. congruence.
Qed.

(** C7. Deleting a pair that is not stored is answered 404 and leaves the
    store as it was; deleting a stored pair removes one row, the first row
    of that pair, and nothing else, after which (pairs being unique) the pair
    is no longer stored. *)
Theorem watchlist_remove (symbol user_id : string) (db : list Watchlist.row) :
  (~ Watchlist.stored user_id symbol db ->
     Watchlist.remove_from_watchlist symbol user_id db =
     (Watchlist.HTTPException 404 "Stock not in watchlist", db)) /\
  (Watchlist.stored user_id symbol db ->
     exists i r,
       db !! i = Some r /\
       Watchlist.row_is user_id (Py.upper symbol) r /\
       Watchlist.remove_from_watchlist symbol user_id db =
       (Watchlist.Ok ("Removed " +:+ symbol +:+ " from watchlist"), delete i db) /\
       length (delete i db) + 1 = length db /\
       (Watchlist.unique_pairs db -> ~ Watchlist.stored user_id symbol (delete i db))).
Proof.
  unfold Watchlist.remove_from_watchlist. split.
  - intros H. apply Watchlist.query_first_None_stored in H. now rewrite H.
  - intros H. destruct (Watchlist.query_first _ _ db) as [[i r]|] eqn:E.
    + unfold Watchlist.query_first in E. apply list_find_Some in E as (Hi & Hr & _).
      exists i, r. repeat split; try assumption; try apply Hr.
      * rewrite length_delete by eauto.
        apply lookup_lt_Some in Hi. lia.
      * intros Hu Hs. apply stored_rows in Hs.
        pose proof (rows_for_delete_found _ _ _ _ _ Hi Hr).
        specialize (Hu user_id (Py.upper symbol)). lia.
    + apply Watchlist.query_first_None_stored in E. contradiction.
Qed.

Lemma watchlist_remove_witness :
  Watchlist.remove_from_watchlist "msft" "default_user" [Watchlist.Row "default_user" "AAPL"] =
    (Watchlist.HTTPException 404 "Stock not in watchlist", [Watchlist.Row "default_user" "AAPL"]) /\
  exists i r,
    [Watchlist.Row "default_user" "AAPL"] !! i = Some r /\
    Watchlist.row_is "default_user" (Py.upper "aapl") r /\
    Watchlist.remove_from_watchlist "aapl" "default_user" [Watchlist.Row "default_user" "AAPL"] =
      (Watchlist.Ok ("Removed " +:+ "aapl" +:+ " from watchlist"),
       delete i [Watchlist.Row "default_user" "AAPL"]) /\
    length (delete i [Watchlist.Row "default_user" "AAPL"]) + 1 =
      length [Watchlist.Row "default_user" "AAPL"] /\
    (Watchlist.unique_pairs [Watchlist.Row "default_user" "AAPL"] ->
     ~ Watchlist.stored "default_user" "aapl" (delete i [Watchlist.Row "default_user" "AAPL"])).
Proof.
  split.
  - apply (proj1 (watchlist_remove "msft" "default_user" [Watchlist.Row "default_user" "AAPL"])).
    intros (r & Hin & _ & Hs). apply list_elem_of_singleton in Hin. subst r. discriminate.
  - apply (proj2 (watchlist_remove "aapl" "default_user" [Watchlist.Row "default_user" "AAPL"])).
    exists (Watchlist.Row "default_user" "AAPL"). split; [left | split; reflexivity].
Defined.




(** ** Chat handler *)

(** C9, counterexample to the statement as the specification has it: a
    request that carries a stock symbol, the empty one, still has the message
    scanned, and the snapshot looked up is that of the symbol found in the
    message. *)
Lemma chat_stock_data_empty_symbol_extracts :
  ChatHandler.stock_symbol
    {| ChatHandler.message := "Tell me about AAPL";
       ChatHandler.session_id := "s1";
       ChatHandler.stock_symbol := Some "" |} <> None /\
  ChatHandler.chat_stock_data (fun symbol => Some symbol)
    {| ChatHandler.message := "Tell me about AAPL";
       ChatHandler.session_id := "s1";
       ChatHandler.stock_symbol := Some "" |} =
  ([ChatHandler.ExtractSymbol "Tell me about AAPL"; ChatHandler.GetStockData "AAPL"],
   Some "AAPL").
Proof. split; [discriminate | reflexivity]. Qed.

(** C9, amended. A non-empty stock symbol of the request takes precedence:
    the only call is the lookup of that symbol, upper-cased, whatever the
    message contains; the message is scanned exactly when the symbol is
    absent or empty. *)
Theorem chat_stock_data_precedence {snapshot : Type}
    (get_stock_data : string -> option snapshot) (request : ChatHandler.ChatRequest) :
  (forall symbol, ChatHandler.stock_symbol request = Some symbol -> symbol <> "" ->
     ChatHandler.chat_stock_data get_stock_data request =
     ([ChatHandler.GetStockData (Py.upper symbol)], get_stock_data (Py.upper symbol))) /\
  (ChatHandler.ExtractSymbol (ChatHandler.message request)
     ∈ fst (ChatHandler.chat_stock_data get_stock_data request) <->
   ChatHandler.stock_symbol request = None \/ ChatHandler.stock_symbol request = Some "").
Proof.
  unfold ChatHandler.chat_stock_data. split.
  - intros symbol -> Hne. destruct symbol; [contradiction | reflexivity].
  - destruct (ChatHandler.stock_symbol request) as [[|c symbol]|]; simpl.
    + split; [auto|]. intros _.
      destruct (Extract.extract_stock_symbol _); simpl; left.
    + split.
      * intros H. apply list_elem_of_singleton in H. discriminate.
      * intros [H|H]; discriminate.
    + split; [auto|]. intros _.
      destruct (Extract.extract_stock_symbol _); simpl; left.
Qed.

Lemma chat_stock_data_precedence_witness :
  ChatHandler.chat_stock_data (fun symbol => Some symbol)
    {| ChatHandler.message := "What about AAPL?";
       ChatHandler.session_id := "s1";
       ChatHandler.stock_symbol := Some "tsla" |} =
  ([ChatHandler.GetStockData (Py.upper "tsla")], Some (Py.upper "tsla")).
Proof.
  apply (proj1 (chat_stock_data_precedence (fun symbol => Some symbol)
                  {| ChatHandler.message := "What about AAPL?";
                     ChatHandler.session_id := "s1";
                     ChatHandler.stock_symbol := Some "tsla" |}) "tsla").
  - reflexivity.
  - discriminate.
Defined.

(** ** Formatting *)

Section Formatting.

Import Value.

Lemma strip_commas_rev l : strip_commas (rev l) = rev (strip_commas l).
Proof.
  unfold strip_commas. induction l as [|c l IH]; [reflexivity|].
  simpl rev. rewrite filter_app, IH, (filter_cons _ c l), (filter_cons _ c []), filter_nil.
  destruct (decide (c <> ","%char)); simpl; [reflexivity | now rewrite app_nil_r].
Qed.

Lemma strip_commas_clean l : Forall (fun c => c <> ","%char) l -> strip_commas l = l.
Proof.
  unfold strip_commas. induction 1 as [|c l Hc _ IH]; [reflexivity|].
  rewrite filter_cons, decide_True by assumption. now rewrite IH.
Qed.

Lemma strip_commas_commas n : forall l, length l <= n -> strip_commas (commas l) = strip_commas l.
Proof.
  induction n as [|n IH]; intros l Hl.
  - destruct l; [reflexivity | simpl in Hl; lia].
  - destruct l as [|a [|b [|c [|d rest]]]]; try reflexivity.
    change (commas (a :: b :: c :: d :: rest))
      with (a :: b :: c :: ","%char :: commas (d :: rest)).
    unfold strip_commas in *. rewrite !filter_cons.
    rewrite (decide_False (P := (","%char <> ","%char))) by congruence.
    rewrite (IH (d :: rest)) by (simpl in *; lia).
    rewrite (filter_cons _ d). reflexivity.
Qed.

Lemma digits_clean u :
  Forall (fun c => c <> ","%char) (list_ascii_of_string (NilZero.string_of_uint u)).
Proof.
  assert (H : Forall (fun c => c <> ","%char)
                (list_ascii_of_string (NilEmpty.string_of_uint u))).
  { induction u; simpl; constructor; auto; discriminate. }
  destruct u; try exact H. simpl. constructor; [discriminate | constructor].
Qed.

(** The grouped rendering is the plain one with commas added. *)
Lemma str_int_grouped_strip n :
  strip_commas (list_ascii_of_string (str_int_grouped n)) =
  list_ascii_of_string (str_int n).
Proof.
  unfold str_int_grouped, group_digits, str_int.
  assert (Hg : forall u,
    strip_commas (list_ascii_of_string
      (string_of_list_ascii (rev (commas (rev (list_ascii_of_string (NilZero.string_of_uint u)))))))
    = list_ascii_of_string (NilZero.string_of_uint u)).
  { intros u. rewrite list_ascii_of_string_of_list_ascii, strip_commas_rev.
    rewrite (strip_commas_commas _ _ (le_n _)), <- strip_commas_rev, rev_involutive.
    apply strip_commas_clean, digits_clean. }
  destruct n as [|p|p]; cbn [Z.ltb Z.compare Z.abs Z.to_int NilZero.string_of_int String.append].
  - reflexivity.
  - apply Hg.
  - cbn [list_ascii_of_string]. unfold strip_commas at 1.
    rewrite filter_cons, decide_True by discriminate. f_equal. apply Hg.
Qed.

Example str_int_grouped_examples :
  str_int_grouped 50000000 = "50,000,000" /\
  str_int_grouped 2700000000000 = "2,700,000,000,000" /\
  str_int_grouped 999 = "999" /\
  str_int_grouped (-1234) = "-1,234".
Proof. repeat split; reflexivity. Qed.

End Formatting.

(** ** Chat context and language-model client *)

Section ChatProperties.

Import Value AIService.

Context {float : Type}.
Variable float_str : float -> string.
Variable float_grouped : float -> string.

Abbreviation get_stock_context := (get_stock_context float_str float_grouped).
Abbreviation chat_messages := (chat_messages float_str float_grouped).
Abbreviation chat := (chat float_str float_grouped).
Abbreviation str := (str float_str).
Abbreviation fmt := (fmt float_str float_grouped).
Abbreviation snapshot_without_volume := (@snapshot_without_volume float).

(** A key that is not in the snapshot reads as "N/A". *)
Lemma get_missing (d : dict float) key :
  ~ has_key d key -> get d key = VStr "N/A".
Proof.
  unfold get, has_key. induction d as [|[k v] d IH]; intros H; simpl; [reflexivity|].
  destruct (String.eqb k key) eqn:E.
  - apply String.eqb_eq in E. subst k. exfalso. apply H. exists v. left.
  - apply IH. intros [w Hw]. apply H. exists w. now right.
Qed.

Lemma fmt_grouped_numeric (v : value float) :
  numeric v -> exists text, fmt v Grouped = Return text.
Proof. destruct v; simpl; intros H; try contradiction; eauto. Qed.

(** The block rendered for a snapshot whose volume and market capitalisation
    are numbers: one line per field, in the order of the source. *)
Lemma get_stock_context_block (d : dict float) :
  d <> [] -> numeric (get d "volume") -> numeric (get d "market_cap") ->
  exists volume market_cap,
    fmt (get d "volume") Grouped = Return volume /\
    fmt (get d "market_cap") Grouped = Return market_cap /\
    get_stock_context (Some d) =
    Return (nl +:+ "Current Stock Information:" +:+ nl
            +:+ "- Symbol: " +:+ str (get d "symbol") +:+ nl
            +:+ "- Company: " +:+ str (get d "company_name") +:+ nl
            +:+ "- Current Price: $" +:+ str (get d "price") +:+ nl
            +:+ "- Change: " +:+ str (get d "change_percent") +:+ "%" +:+ nl
            +:+ "- Volume: " +:+ volume +:+ nl
            +:+ "- Market Cap: $" +:+ market_cap +:+ nl
            +:+ "- Day High: $" +:+ str (get d "day_high") +:+ nl
            +:+ "- Day Low: $" +:+ str (get d "day_low") +:+ nl
            +:+ "- P/E Ratio: " +:+ str (get d "pe_ratio") +:+ nl
            +:+ "- Beta: " +:+ str (get d "beta") +:+ nl).
Proof.
  intros Hd Hv Hm.
  destruct (fmt_grouped_numeric _ Hv) as [volume Ev].
  destruct (fmt_grouped_numeric _ Hm) as [market_cap Em].
  exists volume, market_cap. repeat split; try assumption.
  unfold AIService.get_stock_context. destruct d as [|b d]; [contradiction|].
  cbn [present]. rewrite Ev, Em. reflexivity.
Qed.

(** An absent or empty snapshot renders as the empty string. *)
Lemma get_stock_context_absent :
  get_stock_context None = Return "" /\ get_stock_context (Some []) = Return "".
Proof. split; reflexivity. Qed.

(** [chat_history[-5:]] keeps at most five turns, the last ones, in order. *)
Lemma last_turns_suffix (n : nat) (h : list (dict float)) :
  exists older, h = older ++ last_turns n h /\
                length (last_turns n h) = Nat.min n (length h).
Proof.
  unfold last_turns. exists (take (length h - n) h). split.
  - now rewrite take_drop.
  - rewrite length_drop. lia.
Qed.

Lemma last_turns_of_seven (t1 t2 t3 t4 t5 t6 t7 : dict float) :
  last_turns 5 [t1; t2; t3; t4; t5; t6; t7] = [t3; t4; t5; t6; t7].
Proof. reflexivity. Qed.

(** The message list built when the snapshot renders: the system
    instruction, the pairs of the last five turns, oldest first, and one
    final user turn. *)
Lemma chat_messages_shape user_message stock_data chat_history context :
  get_stock_context stock_data = Return context ->
  chat_messages user_message stock_data chat_history =
  Return ([Message "system" (VStr system_prompt)]
          ++ flat_map turn_messages (last_turns 5 (default [] chat_history))
          ++ [Message "user"
                (VStr (match present stock_data with
                       | Some _ => context +:+ nl +:+ nl +:+ "User Question: " +:+ user_message
                       | None => user_message
                       end))]).
Proof.
  intros Hc. unfold AIService.chat_messages.
  assert (Hh : history_messages chat_history =
               flat_map turn_messages (last_turns 5 (default [] chat_history))).
  { destruct chat_history as [[|t h]|]; reflexivity. }
  rewrite Hh. destruct (present stock_data) eqn:E.
  - rewrite Hc. cbn [mbind result_bind bind]. now rewrite <- app_assoc.
  - cbn [mbind result_bind bind]. now rewrite <- app_assoc.
Qed.

(** C2, at the failing input. The volume is missing, its default "N/A" is a
    string, and the thousands-separator format of a string raises: no block
    is rendered, where the specification has a line "Volume: N/A". *)
Theorem get_stock_context_raises_without_volume :
  get snapshot_without_volume "volume" = VStr "N/A" /\
  get_stock_context (Some snapshot_without_volume) =
  Raise (ValueError "Cannot specify ',' with 's'.").
Proof. split; reflexivity. Qed.

(** C1, at the failing input. The message list is assembled before the
    [try] of [chat]; with a snapshot without volume the rendering of the
    final user turn raises and no message list is produced. *)
Theorem chat_messages_raises_without_volume (chat_history : option (list (dict float))) :
  chat_messages "What do you think about this stock?"
    (Some snapshot_without_volume) chat_history =
  Raise (ValueError "Cannot specify ',' with 's'.").
Proof. reflexivity. Qed.

(** C3, amended. Once the message list is assembled, [chat] returns and
    never raises: a timeout gives the fixed slow-response message, a
    connection failure the fixed unreachable message, a status other than
    200 the fixed message that names the configured model, a 200 reply with
    a non-empty generated text that text, a 200 reply with an empty or
    missing text the fixed "couldn't generate" message, and any other
    failure a message that ends with the detail of the error. *)
Theorem chat_degrades_to_string self post user_message stock_data chat_history messages :
  chat_messages user_message stock_data chat_history = Return messages ->
  (exists answer, chat self post user_message stock_data chat_history = Return answer) /\
  (forall d, post (request_for self messages) = Raise (TimeoutException d) ->
     chat self post user_message stock_data chat_history = Return (JStr slow_message)) /\
  (forall d, post (request_for self messages) = Raise (ConnectError d) ->
     chat self post user_message stock_data chat_history = Return (JStr unreachable_message)) /\
  (forall response, post (request_for self messages) = Return response ->
     status_code response <> 200 ->
     chat self post user_message stock_data chat_history =
     Return (JStr (status_message self))) /\
  (forall response text, post (request_for self messages) = Return response ->
     status_code response = 200 ->
     generated response = Return (JStr text) -> text <> "" ->
     chat self post user_message stock_data chat_history = Return (JStr text)) /\
  (forall response j, post (request_for self messages) = Return response ->
     status_code response = 200 ->
     generated response = Return j -> truthy j = false ->
     chat self post user_message stock_data chat_history = Return (JStr empty_message)) /\
  (forall e, other_failure e ->
     post (request_for self messages) = Raise e \/
     (exists response, post (request_for self messages) = Return response /\
                       status_code response = 200 /\ generated response = Raise e) ->
     chat self post user_message stock_data chat_history =
     Return (JStr ("I encountered an error processing your request: " +:+ str_exn e)) /\
     Py.occurs (str_exn e)
       ("I encountered an error processing your request: " +:+ str_exn e)).
Proof.
  intros Hm. unfold AIService.chat. rewrite Hm. cbn [mbind result_bind bind].
  unfold ask. split; [|split; [|split; [|split; [|split; [|split]]]]].
  - destruct (post _) as [response|e]; cbn [mbind result_bind bind].
    + destruct (Nat.eqb _ 200); [|eauto].
      destruct (generated response) as [j|e]; cbn [bind]; [eauto|].
      destruct e; eauto.
    + destruct e; eauto.
  - intros d ->. reflexivity.
  - intros d ->. reflexivity.
  - intros response -> Hs. cbn [mbind result_bind bind].
    apply Nat.eqb_neq in Hs. now rewrite Hs.
  - intros response text -> Hs Hg Ht. cbn [mbind result_bind bind].
    rewrite Hs, Hg. cbn. apply String.eqb_neq in Ht. now rewrite Ht.
  - intros response j -> Hs Hg Ht. cbn [mbind result_bind bind].
    rewrite Hs, Hg. cbn [Nat.eqb mbind result_bind bind]. now rewrite Ht.
  - intros e He Hfail. split; [|apply Py.occurs_suffix].
    destruct Hfail as [->|(response & -> & Hs & Hg)]; cbn [mbind result_bind bind].
    + destruct e; try contradiction; reflexivity.
    + rewrite Hs, Hg. cbn. destruct e; try contradiction; reflexivity.
Qed.

End ChatProperties.

(** C3, counterexample to the statement as the specification has it. On a
    reply with status 500 the answer
    is the fixed message that names the model: it holds neither the status
    nor the text of the reply, so no detail of the error is embedded; and
    with a snapshot that has no volume the call raises instead of
    returning. *)
Lemma chat_status_error_hides_detail :
  AIService.chat (float := unit) (fun _ => "") (fun _ => "") AIService.default_service
    (fun _ => Value.Return {| AIService.status_code := 500;
                              AIService.text := "model runner crashed";
                              AIService.json_body := Value.Return AIService.JNull |})
    "hi" None None =
  Value.Return (AIService.JStr
    "I encountered an error. Please make sure Ollama is running with the model 'qwen2.5:0.5b'.") /\
  Py.contains "500"
    "I encountered an error. Please make sure Ollama is running with the model 'qwen2.5:0.5b'."
  = false /\
  Py.contains "model runner crashed"
    "I encountered an error. Please make sure Ollama is running with the model 'qwen2.5:0.5b'."
  = false /\
  AIService.chat (float := unit) (fun _ => "") (fun _ => "") AIService.default_service
    (fun _ => Value.Raise (Value.TimeoutException "timed out"))
    "hi" (Some [("symbol", Value.VStr "AAPL")]) None =
  Value.Raise (Value.ValueError "Cannot specify ',' with 's'.").
Proof. repeat split; reflexivity. Qed.

Lemma chat_degrades_to_string_witness :
  AIService.chat (float := unit) (fun _ => "") (fun _ => "") AIService.default_service
    (fun _ => Value.Raise (Value.TimeoutException "timed out"))
    "hi" None (Some [[("user_message", Value.VStr "hello"); ("ai_response", Value.VStr "Hi!")]]) =
  Value.Return (AIService.JStr AIService.slow_message).
Proof.
  eapply (proj1 (proj2 (chat_degrades_to_string (fun _ : unit => "") (fun _ => "")
            AIService.default_service
            (fun _ => Value.Raise (Value.TimeoutException "timed out"))
            "hi" None
            (Some [[("user_message", Value.VStr "hello"); ("ai_response", Value.VStr "Hi!")]])
            _ eq_refl)) "timed out").
  reflexivity.
Defined.

(** ** Realtime broadcaster *)

Section BroadcasterProperties.

Import Realtime.

Context {snapshot : Type}.

Abbreviation task := (@task snapshot).
Abbreviation server := (@server snapshot).

(** [list.remove] on a registry without duplicates. *)
Lemma remove_registered (c : ws) (registry : list ws) :
  NoDup registry -> c ∈ registry ->
  exists remaining,
    remove c registry = Some remaining /\
    NoDup remaining /\
    forall x, x ∈ remaining <-> x ∈ registry /\ x <> c.
Proof.
  induction registry as [|w registry IH]; intros Hnd Hin.
  - now apply elem_of_nil in Hin.
  - apply NoDup_cons in Hnd as [Hw Hnd]. simpl. destruct (decide (w = c)) as [->|Hne].
    + exists registry. split; [reflexivity|]. split; [assumption|].
      intros x. rewrite elem_of_cons. split.
      * intros Hx. split; [now right|]. intros ->. contradiction.
      * intros [[->|Hx] Hxc]; [contradiction|assumption].
    + apply elem_of_cons in Hin as [->|Hin]; [contradiction|].
      destruct (IH Hnd Hin) as (remaining & -> & Hnd' & Hmem).
      exists (w :: remaining). split; [reflexivity|]. split.
      * apply NoDup_cons. split; [|assumption]. intros Hw'. apply Hmem in Hw'. tauto.
      * intros x. rewrite !elem_of_cons, Hmem. split.
        -- intros [->|[Hx Hxc]]; split; auto.
        -- intros [[->|Hx] Hxc]; auto.
Qed.

Lemma unregistrations_app (l k : list (@action snapshot)) :
  unregistrations (l ++ k) = unregistrations l + unregistrations k.
Proof. unfold unregistrations. now rewrite filter_app, length_app. Qed.

Lemma unregistrations_round (it : @iteration snapshot) : unregistrations (round it) = 0.
Proof. reflexivity. Qed.

Lemma unregistrations_rounds (done : list (@iteration snapshot)) :
  unregistrations (flat_map round done) = 0.
Proof.
  induction done as [|it done IH]; [reflexivity|].
  change (flat_map round (it :: done)) with (round it ++ flat_map round done).
  now rewrite unregistrations_app, IH.
Qed.

(** A shaped log records the unregistration once when the task is closed and
    not at all before. *)
Lemma shaped_unregistrations script0 (t : task) :
  shaped script0 t ->
  unregistrations (log t) = match pc t with Closed => 1 | _ => 0 end.
Proof.
  unfold shaped. destruct (pc t) eqn:E; try (intros ->; reflexivity);
    try (intros [-> _]; reflexivity);
    intros (done & tail & _ & -> & _ & Hl);
    rewrite !unregistrations_app, unregistrations_rounds;
    inversion Hl; subst; reflexivity.
Qed.

Lemma finally_registered c (t : task) acts registry :
  NoDup registry -> c ∈ registry ->
  exists remaining,
    finally c t acts registry =
      (remaining,
       Task Closed (accept t) (script t) (log t ++ acts ++ [Unregistered])) /\
    NoDup remaining /\
    forall x, x ∈ remaining <-> x ∈ registry /\ x <> c.
Proof.
  intros Hnd Hin. destruct (remove_registered c registry Hnd Hin) as (remaining & Hr & H).
  exists remaining. split; [|exact H].
  unfold finally, disconnect. rewrite decide_True by assumption. now rewrite Hr.
Qed.

Lemma finally_alone (t : task) acts :
  finally 0 t acts [0] =
  ([], Task Closed (accept t) (script t) (log t ++ acts ++ [Unregistered])).
Proof.
  unfold finally, disconnect. rewrite decide_True by left. reflexivity.
Qed.

(** The step of a registered, running task does to the task what it does
    when the task is alone: the rest of the registry plays no part. *)
Lemma step_task_alone c (t : task) registry :
  NoDup registry -> (c ∈ registry <-> live (pc t)) ->
  snd (step_task c t registry) = alone t.
Proof.
  intros Hnd Hreg. unfold alone, step_task.
  destruct t as [p acc scr lg]. cbn [pc accept script log] in *.
  destruct p; cbn [live] in Hreg; try reflexivity;
    try (destruct acc; reflexivity);
    assert (Hin : c ∈ registry) by tauto;
    destruct scr as [|it rest]; try reflexivity;
    repeat match goal with
    | |- context [decide (client_state ?it = ?s)] => destruct (decide (client_state it = s))
    | |- context [get_multiple_stocks ?it ?l] => destruct (get_multiple_stocks it l)
    | |- context [send_json ?it] => destruct (send_json it)
    | |- context [sleep ?it] => destruct (sleep it)
    end; try reflexivity;
    match goal with
    | |- context [finally c ?t ?acts registry] =>
        destruct (finally_registered c t acts registry Hnd Hin) as (remaining & -> & _)
    end; cbn [live]; rewrite decide_True by exact I; rewrite finally_alone; reflexivity.
Qed.

Lemma step_task_ended c (t : task) registry :
  pc t = Closed \/ pc t = Refused -> step_task c t registry = (registry, t).
Proof. unfold step_task. intros [->| ->]; reflexivity. Qed.

Lemma rounds_snoc (done : list (@iteration snapshot)) it :
  flat_map round (done ++ [it]) = flat_map round done ++ round it.
Proof. rewrite flat_map_app. reflexivity. Qed.

Lemma frame_of_fetched (it : @iteration snapshot) stocks_data :
  get_multiple_stocks it tracked_symbols = Done stocks_data ->
  Frame "stock_update" stocks_data (utcnow it) = frame_of it.
Proof. intros H. unfold frame_of. now rewrite H. Qed.

Ltac shape_done :=
  repeat split; cbn [script log pc];
  rewrite ?app_nil_r, <- ?app_assoc; cbn [app]; auto;
  try (econstructor; eauto; fail).

Lemma step_task_ok script0 c (t : task) registry :
  NoDup registry -> (c ∈ registry <-> live (pc t)) -> shaped script0 t ->
  step_ok script0 c t registry
    (fst (step_task c t registry)) (snd (step_task c t registry)).
Proof.
  intros Hnd Hreg Hsh.
  destruct t as [p acc scr lg]. unfold shaped in Hsh. cbn [pc accept script log] in *.
  unfold step_task. cbn [pc accept script log].
  destruct p; cbn [live] in Hreg.
  - (* before the handshake *)
    destruct Hsh as [-> ->]. destruct acc as [u|e]; cbn [fst snd].
    + split; cbn [pc live]; try tauto; unfold connect.
      * exists [], []. shape_done.
      * apply NoDup_app. repeat split; auto.
        -- intros x Hx Hx'. apply list_elem_of_singleton in Hx'. subst x. tauto.
        -- apply NoDup_singleton.
      * rewrite elem_of_app, list_elem_of_singleton. tauto.
      * intros x Hx. rewrite elem_of_app, list_elem_of_singleton. tauto.
    + split; cbn [pc live]; try tauto. reflexivity.
  - (* at the top of the loop *)
    assert (Hin : c ∈ registry) by tauto.
    destruct Hsh as (done & tl & Hscr & Hlog & Hdone & Hl). inversion Hl; subst.
    rewrite app_nil_r.
    destruct scr as [|it rest]; cbn [fst snd].
    { split; cbn [pc live]; try tauto.
      exists done, []. shape_done. }
    destruct (decide (client_state it = "CONNECTED")) as [Hopen|Hshut].
    + destruct (get_multiple_stocks it tracked_symbols) as [stocks_data|e] eqn:Ef.
      * cbn [fst snd]. split; cbn [pc live]; try tauto.
        exists done, [Fetched tracked_symbols].
        rewrite (frame_of_fetched _ _ Ef). shape_done.
        constructor. split; eauto.
      * destruct (finally_registered c (Task LoopTop acc (it :: rest)
                    ([Accepted; Registered] ++ flat_map round done))
                    [Fetched tracked_symbols] registry Hnd Hin) as (remaining & -> & Hnd' & Hmem).
        cbn [fst snd log accept script]. split; cbn [pc live]; auto.
        -- exists done, [Fetched tracked_symbols; Unregistered].
           shape_done.
        -- rewrite Hmem. tauto.
        -- intros x Hx. rewrite Hmem. tauto.
    + destruct (finally_registered c (Task LoopTop acc (it :: rest)
                  ([Accepted; Registered] ++ flat_map round done))
                  [] registry Hnd Hin) as (remaining & -> & Hnd' & Hmem).
      cbn [fst snd log accept script]. split; cbn [pc live]; auto.
      * exists done, [Unregistered].
        shape_done.
      * rewrite Hmem. tauto.
      * intros x Hx. rewrite Hmem. tauto.
  - (* suspended in send_json *)
    assert (Hin : c ∈ registry) by tauto.
    destruct Hsh as (done & tl & Hscr & Hlog & Hdone & Hl). inversion Hl; subst.
    destruct (send_json it) as [[]|e] eqn:Es.
    + cbn [fst snd]. split; cbn [pc live]; try tauto.
      exists done, (round it). shape_done.
    + destruct (finally_registered c (Task (Sending (frame_of it)) acc (it :: rest)
                  ([Accepted; Registered] ++ flat_map round done ++ [Fetched tracked_symbols]))
                  [PushFailed (frame_of it)] registry Hnd Hin) as (remaining & -> & Hnd' & Hmem).
      cbn [fst snd log accept script]. split; cbn [pc live]; auto.
      * exists done, [Fetched tracked_symbols; PushFailed (frame_of it); Unregistered].
        shape_done.
      * rewrite Hmem. tauto.
      * intros x Hx. rewrite Hmem. tauto.
  - (* suspended in asyncio.sleep *)
    assert (Hin : c ∈ registry) by tauto.
    destruct Hsh as (done & tl & Hscr & Hlog & Hdone & Hl). inversion Hl; subst.
    destruct (sleep it) as [[]|e] eqn:Es.
    + cbn [fst snd]. split; cbn [pc live]; try tauto.
      exists (done ++ [it]), []. rewrite rounds_snoc. shape_done.
      apply Forall_app. split; [assumption|]. constructor; [|constructor].
      match goal with H : fetched_ok it |- _ => destruct H as [Ho Hf] end.
      repeat split; auto.
    + destruct (finally_registered c (Task Sleeping acc (it :: rest)
                  ([Accepted; Registered] ++ flat_map round done ++ round it))
                  [] registry Hnd Hin) as (remaining & -> & Hnd' & Hmem).
      cbn [fst snd log accept script]. split; cbn [pc live]; auto.
      * exists done, (round it ++ [Unregistered]).
        shape_done.
      * rewrite Hmem. tauto.
      * intros x Hx. rewrite Hmem. tauto.
  - (* closed *)
    cbn [fst snd]. split; cbn [pc live]; try tauto.
  - (* refused *)
    cbn [fst snd]. split; cbn [pc live]; try tauto.
Qed.

Lemma start_invariant clients : invariant clients (@start snapshot clients).
Proof.
  split; [split|]; cbn [active_connections tasks start].
  - constructor.
  - intros c. split.
    + intros H. now apply elem_of_nil in H.
    + intros (t & Ht & Hl). rewrite lookup_fmap in Ht.
      destruct (clients !! c); [|discriminate]. injection Ht as <-. contradiction.
  - intros c t Ht. rewrite lookup_fmap in Ht.
    destruct (clients !! c) as [env|]; [|discriminate]. injection Ht as <-.
    exists env. split; [reflexivity|]. split; reflexivity.
Qed.

Lemma registered_live (s : server) c t :
  registry_ok s -> tasks s !! c = Some t ->
  c ∈ active_connections s <-> live (pc t).
Proof.
  intros [_ Hreg] Ht. rewrite Hreg. split.
  - intros (t' & Ht' & Hl). congruence.
  - intros Hl. eauto.
Qed.

Lemma step_invariant clients c (s : server) :
  invariant clients s -> invariant clients (step c s).
Proof.
  intros [Hreg Htasks]. unfold step.
  destruct (tasks s !! c) as [t|] eqn:Ht; [|now split].
  destruct (Htasks c t Ht) as (env & Henv & Hsh).
  pose proof (step_task_ok (snd env) c t (active_connections s)
                (proj1 Hreg) (registered_live s c t Hreg Ht) Hsh) as Hok.
  destruct (step_task c t (active_connections s)) as [registry' t'].
  cbn [fst snd] in Hok. destruct Hok as [Hsh' Hnd' Hself Hothers].
  split; [split|]; cbn [active_connections tasks].
  - assumption.
  - intros x. destruct (decide (x = c)) as [->|Hne].
    + rewrite lookup_insert_eq, Hself. split; [eauto|].
      intros (t2 & [= <-] & Hl). assumption.
    + rewrite lookup_insert_ne by congruence.
      rewrite (Hothers x Hne). apply Hreg.
  - intros x tx. destruct (decide (x = c)) as [->|Hne].
    + rewrite lookup_insert_eq. intros [= <-]. eauto.
    + rewrite lookup_insert_ne by congruence. apply Htasks.
Qed.

Lemma run_invariant clients schedule : forall s : server,
  invariant clients s -> invariant clients (run schedule s).
Proof.
  induction schedule as [|c later IH]; intros s Hs; simpl; [assumption|].
  apply IH, step_invariant, Hs.
Qed.

(** A step of the scheduler changes the task it resumes as if that task were
    alone, and no other task. *)
Lemma step_lookup clients c d (s : server) :
  invariant clients s ->
  tasks (step c s) !! d =
  if decide (c = d) then alone <$> (tasks s !! d) else tasks s !! d.
Proof.
  intros [Hreg Htasks]. unfold step.
  destruct (tasks s !! c) as [t|] eqn:Ht.
  - pose proof (step_task_alone c t (active_connections s)
                  (proj1 Hreg) (registered_live s c t Hreg Ht)) as Ha.
    destruct (step_task c t (active_connections s)) as [registry' t'].
    cbn [snd] in Ha. subst t'. cbn [tasks].
    destruct (decide (c = d)) as [->|Hne].
    + now rewrite lookup_insert_eq, Ht.
    + now rewrite lookup_insert_ne.
  - destruct (decide (c = d)) as [->|Hne]; [now rewrite Ht | reflexivity].
Qed.

Lemma run_lookup clients schedule d : forall s : server,
  invariant clients s ->
  tasks (run schedule s) !! d = (Nat.iter (turns d schedule) alone) <$> (tasks s !! d).
Proof.
  unfold turns. induction schedule as [|c later IH]; intros s Hs.
  - simpl. now destruct (tasks s !! d).
  - cbn [run]. rewrite (IH _ (step_invariant clients c s Hs)).
    rewrite (step_lookup clients c d s Hs), filter_cons.
    destruct (decide (c = d)) as [->|Hne].
    + cbn [length]. destruct (tasks s !! d); [|reflexivity].
      cbn [fmap option_fmap option_map]. f_equal. symmetry. apply Nat.iter_succ_r.
    + reflexivity.
Qed.

Lemma alone_ended (t : task) : pc t = Closed \/ pc t = Refused -> alone t = t.
Proof. unfold alone. intros H. now rewrite step_task_ended. Qed.

Lemma iter_alone_ended n (t : task) :
  pc t = Closed \/ pc t = Refused -> Nat.iter n alone t = t.
Proof.
  intros H. induction n as [|n IH]; [reflexivity|].
  change (Nat.iter (S n) alone t) with (alone (Nat.iter n alone t)).
  rewrite IH. now apply alone_ended.
Qed.

(** Every way out of the loop ends the task in [Closed], through the
    [finally] block: the connection found not open at the top, a failed
    fetch, a failed push, and an exception (or the cancellation) that
    arrives during the sleep. *)
Lemma exit_paths_close (t : task) it rest :
  script t = it :: rest ->
  (pc t = LoopTop -> client_state it <> "CONNECTED" -> pc (alone t) = Closed) /\
  (forall e, pc t = LoopTop -> client_state it = "CONNECTED" ->
     get_multiple_stocks it tracked_symbols = Raised e -> pc (alone t) = Closed) /\
  (forall f e, pc t = Sending f -> send_json it = Raised e -> pc (alone t) = Closed) /\
  (forall e, pc t = Sleeping -> sleep it = Raised e -> pc (alone t) = Closed).
Proof.
  intros Hs.
  assert (Ha : live (pc t) -> alone t = snd (step_task 0 t [0])).
  { intros Hl. unfold alone. now rewrite decide_True. }
  repeat split.
  - intros Hp Hc. rewrite Ha by now rewrite Hp.
    unfold step_task. rewrite Hp, Hs, decide_False by assumption.
    now rewrite finally_alone.
  - intros e Hp Hc He. rewrite Ha by now rewrite Hp.
    unfold step_task. rewrite Hp, Hs, decide_True, He by assumption.
    now rewrite finally_alone.
  - intros f e Hp He. rewrite Ha by now rewrite Hp.
    unfold step_task. rewrite Hp, Hs, He. now rewrite finally_alone.
  - intros e Hp He. rewrite Ha by now rewrite Hp.
    unfold step_task. rewrite Hp, Hs, He. now rewrite finally_alone.
Qed.

(** A completed iteration, played by a task that is alone: the fetch, the
    push of its frame and the sleep, and the task is back at the top of the
    loop with the next iteration. *)
Lemma alone_round (acc : outcome unit) (it : @iteration snapshot) rest lg :
  completed it ->
  alone (alone (alone (Task LoopTop acc (it :: rest) lg))) =
  Task LoopTop acc rest (lg ++ round it).
Proof.
  intros (Ho & [stocks_data Hf] & Hs & Hz).
  unfold alone at 3. unfold step_task. cbn [pc accept script log live].
  rewrite decide_True by exact Ho. rewrite Hf. cbn [snd].
  unfold alone at 2. unfold step_task. cbn [pc accept script log live].
  rewrite Hs. cbn [snd].
  unfold alone. unfold step_task. cbn [pc accept script log live].
  rewrite Hz. cbn [snd]. rewrite <- !app_assoc.
  now rewrite (frame_of_fetched _ _ Hf).
Qed.

Lemma alone_rounds (acc : outcome unit) (done : list (@iteration snapshot)) :
  forall rest lg, Forall completed done ->
  Nat.iter (3 * length done) alone (Task LoopTop acc (done ++ rest) lg) =
  Task LoopTop acc rest (lg ++ flat_map round done).
Proof.
  induction done as [|it done IH]; intros rest lg Hd.
  - simpl. now rewrite app_nil_r.
  - inversion Hd as [|? ? Hit Hdone]; subst.
    replace (3 * length (it :: done)) with (3 * length done + 3) by (simpl; lia).
    rewrite Nat.iter_add.
    change (Nat.iter 3 alone ?t) with (alone (alone (alone t))).
    change ((it :: done) ++ rest) with (it :: (done ++ rest)).
    rewrite (alone_round acc it (done ++ rest) lg Hit), (IH rest _ Hdone).
    change (flat_map round (it :: done)) with (round it ++ flat_map round done).
    now rewrite app_assoc.
Qed.

(** C4. Whatever the schedule and whatever the environments of the clients
    do: the registry never holds a connection twice and holds only
    connections whose task still runs the loop; every way out of the loop
    closes the task; a closed task has been unregistered exactly once, is
    not in the registry, and nothing happens to it afterwards; and the task
    of a connection is the one it would have on a server of its own, so it
    does not depend on what the other connections are or on how they
    fail. *)
Theorem broadcaster_unregisters_once
    (clients : gmap ws (outcome unit * list (@iteration snapshot))) (schedule : list ws) :
  let s := run schedule (start clients) in
  NoDup (active_connections s) /\
  (forall c, c ∈ active_connections s ->
     exists t, tasks s !! c = Some t /\ live (pc t)) /\
  (forall (t : task) it rest, script t = it :: rest ->
     (pc t = LoopTop -> client_state it <> "CONNECTED" -> pc (alone t) = Closed) /\
     (forall e, pc t = LoopTop -> client_state it = "CONNECTED" ->
        get_multiple_stocks it tracked_symbols = Raised e -> pc (alone t) = Closed) /\
     (forall f e, pc t = Sending f -> send_json it = Raised e -> pc (alone t) = Closed) /\
     (forall e, pc t = Sleeping -> sleep it = Raised e -> pc (alone t) = Closed)) /\
  (forall c t, tasks s !! c = Some t ->
     unregistrations (log t) = match pc t with Closed => 1 | _ => 0 end) /\
  (forall c t, tasks s !! c = Some t -> pc t = Closed ->
     unregistrations (log t) = 1 /\
     (c ∉ active_connections s) /\
     forall later, (c ∉ active_connections (run later s)) /\
                   tasks (run later s) !! c = Some t) /\
  (forall c, tasks s !! c =
             (Nat.iter (turns c schedule) alone) <$> (new_task <$> (clients !! c))) /\
  (forall c clients', clients' !! c = clients !! c ->
     tasks (run schedule (start clients')) !! c = tasks s !! c).
Proof.
  intros s.
  pose proof (run_invariant clients schedule _ (start_invariant clients)) as Hinv.
  fold s in Hinv. destruct Hinv as [[Hnd Hreg] Htasks].
  assert (Hlookup : forall c (clients0 : gmap ws (outcome unit * list (@iteration snapshot))),
            tasks (run schedule (start clients0)) !! c =
            (Nat.iter (turns c schedule) alone) <$> (new_task <$> (clients0 !! c))).
  { intros c clients0.
    rewrite (run_lookup clients0 schedule c _ (start_invariant clients0)).
    cbn [start tasks]. now rewrite lookup_fmap. }
  assert (Hcount : forall c t, tasks s !! c = Some t ->
            unregistrations (log t) = match pc t with Closed => 1 | _ => 0 end).
  { intros c t Ht. destruct (Htasks c t Ht) as (env & _ & Hsh).
    eapply shaped_unregistrations, Hsh. }
  split; [assumption|]. split; [apply Hreg|].
  split; [apply exit_paths_close|]. split; [assumption|].
  split; [|split].
  - intros c t Ht Hc.
    assert (Hstay : forall later, tasks (run later s) !! c = Some t).
    { intros later.
      rewrite (run_lookup clients later c s (conj (conj Hnd Hreg) Htasks)), Ht.
      cbn. rewrite iter_alone_ended by auto. reflexivity. }
    assert (Hout : forall later, c ∉ active_connections (run later s)).
    { intros later Hin.
      pose proof (run_invariant clients later s (conj (conj Hnd Hreg) Htasks)) as [[_ Hreg'] _].
      apply Hreg' in Hin as (t' & Ht' & Hl). rewrite Hstay in Ht'.
      injection Ht' as <-. rewrite Hc in Hl. exact Hl. }
    split; [|split].
    + rewrite (Hcount c t Ht), Hc. reflexivity.
    + apply (Hout []).
    + intros later. split; [apply Hout | apply Hstay].
  - intros c. apply Hlookup.
  - intros c clients' Heq. unfold s. now rewrite !Hlookup, Heq.
Qed.

(** The handshake and the completed iterations [done] of a task that is
    alone. *)
Lemma alone_opening (done rest : list (@iteration snapshot)) :
  Forall completed done ->
  Nat.iter (1 + 3 * length done) alone (new_task (Done tt, done ++ rest)) =
  Task LoopTop (Done tt) rest ([Accepted; Registered] ++ flat_map round done).
Proof.
  intros Hd. replace (1 + 3 * length done) with (3 * length done + 1) by lia.
  rewrite Nat.iter_add. change (Nat.iter 1 alone ?t) with (alone t).
  unfold new_task. cbn [fst snd].
  replace (alone (Task Connecting (Done tt) (done ++ rest) []))
    with (Task LoopTop (Done tt) (done ++ rest) ([] ++ [@Accepted snapshot; Registered]))
    by reflexivity.
  now rewrite (alone_rounds (Done tt) done rest _ Hd).
Qed.

Lemma alone_live (t : task) : live (pc t) -> alone t = snd (step_task 0 t [0]).
Proof. intros Hl. unfold alone. now rewrite decide_True. Qed.

(** Once closed, for ever closed, and the same. *)
Lemma iter_alone_closed n m (t : task) :
  pc (Nat.iter n alone t) = Closed -> n <= m ->
  Nat.iter m alone t = Nat.iter n alone t.
Proof.
  intros Hc Hle. replace m with ((m - n) + n) by lia.
  rewrite Nat.iter_add. apply iter_alone_ended. now left.
Qed.

(** The steps of a task only add to its log. *)
Lemma alone_log (t : task) : log t `prefix_of` log (alone t).
Proof.
  unfold alone, step_task. destruct t as [p acc scr lg]. cbn [pc accept script log live].
  destruct p; try (destruct acc); try (destruct scr as [|it rest]);
    cbn [snd log]; try reflexivity; try (now eexists);
    repeat match goal with
    | |- context [decide (client_state ?it = ?s)] => destruct (decide (client_state it = s))
    | |- context [get_multiple_stocks ?it ?l] => destruct (get_multiple_stocks it l)
    | |- context [send_json ?it] => destruct (send_json it)
    | |- context [sleep ?it] => destruct (sleep it)
    end; cbn [snd log]; try reflexivity; try (now eexists);
    rewrite ?decide_True by exact I; rewrite ?finally_alone; cbn [snd log]; now eexists.
Qed.

Lemma iter_alone_log n m (t : task) :
  n <= m -> log (Nat.iter n alone t) `prefix_of` log (Nat.iter m alone t).
Proof.
  intros Hle. replace m with ((m - n) + n) by lia. rewrite Nat.iter_add.
  generalize (Nat.iter n alone t). intros t0.
  induction (m - n) as [|k IH]; [reflexivity|].
  change (Nat.iter (S k) alone t0) with (alone (Nat.iter k alone t0)).
  etransitivity; [exact IH | apply alone_log].
Qed.

(** The iteration that ends the loop, played by a task that is alone: the
    four ways out, with what each leaves in the log.  Three steps are
    enough for each of them, an ended task doing nothing more. *)
Lemma alone_exits (acc : outcome unit) (it : @iteration snapshot) rest lg :
  (client_state it <> "CONNECTED" ->
   Nat.iter 3 alone (Task LoopTop acc (it :: rest) lg) =
   Task Closed acc (it :: rest) (lg ++ [Unregistered])) /\
  (forall e, client_state it = "CONNECTED" ->
     get_multiple_stocks it tracked_symbols = Raised e ->
     Nat.iter 3 alone (Task LoopTop acc (it :: rest) lg) =
     Task Closed acc (it :: rest) (lg ++ [Fetched tracked_symbols; Unregistered])) /\
  (forall e, fetched_ok it -> send_json it = Raised e ->
     Nat.iter 3 alone (Task LoopTop acc (it :: rest) lg) =
     Task Closed acc (it :: rest)
       (lg ++ [Fetched tracked_symbols; PushFailed (frame_of it); Unregistered])) /\
  (forall e, fetched_ok it -> send_json it = Done tt -> sleep it = Raised e ->
     Nat.iter 3 alone (Task LoopTop acc (it :: rest) lg) =
     Task Closed acc (it :: rest) (lg ++ round it ++ [Unregistered])).
Proof.
  change (Nat.iter 3 alone ?t) with (alone (alone (alone t))).
  repeat split.
  - intros Hshut.
    assert (H1 : alone (Task LoopTop acc (it :: rest) lg) =
                 Task Closed acc (it :: rest) (lg ++ [Unregistered])).
    { rewrite alone_live by exact I. unfold step_task. cbn [pc accept script log].
      rewrite decide_False by exact Hshut.
      now rewrite finally_alone. }
    rewrite H1. rewrite !alone_ended by now left. reflexivity.
  - intros e Hopen Hf.
    assert (H1 : alone (Task LoopTop acc (it :: rest) lg) =
                 Task Closed acc (it :: rest) (lg ++ [Fetched tracked_symbols; Unregistered])).
    { rewrite alone_live by exact I. unfold step_task. cbn [pc accept script log].
      rewrite decide_True by exact Hopen.
      rewrite Hf. now rewrite finally_alone. }
    rewrite H1. rewrite !alone_ended by now left. reflexivity.
  - intros e [Hopen [stocks_data Hf]] Hs.
    assert (H1 : alone (Task LoopTop acc (it :: rest) lg) =
                 Task (Sending (frame_of it)) acc (it :: rest)
                      (lg ++ [Fetched tracked_symbols])).
    { rewrite alone_live by exact I. unfold step_task. cbn [pc accept script log].
      rewrite decide_True by exact Hopen.
      rewrite Hf. cbn [snd]. now rewrite (frame_of_fetched _ _ Hf). }
    assert (H2 : alone (Task (Sending (frame_of it)) acc (it :: rest)
                          (lg ++ [Fetched tracked_symbols])) =
                 Task Closed acc (it :: rest)
                   (lg ++ [Fetched tracked_symbols; PushFailed (frame_of it); Unregistered])).
    { rewrite alone_live by exact I. unfold step_task. cbn [pc accept script log].
      rewrite Hs, finally_alone.
      cbn [snd log accept script]. now rewrite <- app_assoc. }
    rewrite H1, H2. rewrite alone_ended by now left. reflexivity.
  - intros e [Hopen [stocks_data Hf]] Hs Hz.
    assert (H1 : alone (Task LoopTop acc (it :: rest) lg) =
                 Task (Sending (frame_of it)) acc (it :: rest)
                      (lg ++ [Fetched tracked_symbols])).
    { rewrite alone_live by exact I. unfold step_task. cbn [pc accept script log].
      rewrite decide_True by exact Hopen.
      rewrite Hf. cbn [snd]. now rewrite (frame_of_fetched _ _ Hf). }
    assert (H2 : alone (Task (Sending (frame_of it)) acc (it :: rest)
                          (lg ++ [Fetched tracked_symbols])) =
                 Task Sleeping acc (it :: rest) (lg ++ round it)).
    { rewrite alone_live by exact I. unfold step_task. cbn [pc accept script log].
      rewrite Hs. cbn [snd].
      now rewrite <- app_assoc. }
    assert (H3 : alone (Task Sleeping acc (it :: rest) (lg ++ round it)) =
                 Task Closed acc (it :: rest) (lg ++ round it ++ [Unregistered])).
    { rewrite alone_live by exact I. unfold step_task. cbn [pc accept script log].
      rewrite Hz, finally_alone.
      cbn [snd log accept script]. now rewrite <- app_assoc. }
    now rewrite H1, H2, H3.
Qed.

(** C5. Whatever the schedule, the log of a connection is the handshake and
    the registration, then one round per iteration of its environment
    already played, each of them with the connection open, the fetch of the
    default symbols, one frame [{type: "stock_update", data, timestamp}]
    pushed and a sleep of 30, and then the round under way or the round
    that ended the loop; a task that ended stays as it is.

    The loop ends in the first iteration that does not complete, and how it
    ends is settled by that iteration alone: once the connection has been
    resumed often enough, its task is closed for good, and after the rounds
    of the completed iterations its log holds only the unregistration when
    the connection was found not open (nothing fetched, nothing pushed),
    the fetch and the unregistration when the fetch failed (nothing
    pushed), and the fetch, the failed push and the unregistration when the
    push failed: no later iteration of the environment is ever played.

    As long as the iterations complete the connection is served: once it
    has been resumed often enough, its log starts with the registration and
    the round of each completed iteration. *)
Theorem broadcaster_iterations
    (clients : gmap ws (outcome unit * list (@iteration snapshot))) (schedule : list ws)
    (c : ws) env (t : task) :
  clients !! c = Some env ->
  tasks (run schedule (start clients)) !! c = Some t ->
  shaped (snd env) t /\
  (forall it : @iteration snapshot,
     round it = [Fetched ["AAPL"; "GOOGL"; "MSFT"; "TSLA"; "AMZN"];
                 Pushed (frame_of it); Sleep 30] /\
     type (frame_of it) = "stock_update" /\
     timestamp (frame_of it) = utcnow it /\
     forall stocks_data,
       get_multiple_stocks it tracked_symbols = Done stocks_data ->
       data (frame_of it) = stocks_data) /\
  (pc t = Closed \/ pc t = Refused ->
   forall later, tasks (run later (run schedule (start clients))) !! c = Some t) /\
  (forall done it rest,
     env = (Done tt, done ++ it :: rest) -> Forall completed done ->
     exists n, forall schedule', n <= turns c schedule' ->
       (client_state it <> "CONNECTED" ->
        tasks (run schedule' (start clients)) !! c =
        Some (ended done it rest [Unregistered])) /\
       (forall e, client_state it = "CONNECTED" ->
          get_multiple_stocks it tracked_symbols = Raised e ->
          tasks (run schedule' (start clients)) !! c =
          Some (ended done it rest [Fetched tracked_symbols; Unregistered])) /\
       (forall e, fetched_ok it -> send_json it = Raised e ->
          tasks (run schedule' (start clients)) !! c =
          Some (ended done it rest
                  [Fetched tracked_symbols; PushFailed (frame_of it); Unregistered])) /\
       (forall e, fetched_ok it -> send_json it = Done tt -> sleep it = Raised e ->
          tasks (run schedule' (start clients)) !! c =
          Some (ended done it rest (round it ++ [Unregistered])))) /\
  (forall done rest,
     env = (Done tt, done ++ rest) -> Forall completed done ->
     exists n, forall schedule', n <= turns c schedule' ->
       exists t', tasks (run schedule' (start clients)) !! c = Some t' /\
                  ([Accepted; Registered] ++ flat_map round done) `prefix_of` log t').
Proof.
  intros Henv Ht.
  pose proof (run_invariant clients schedule _ (start_invariant clients)) as Hinv.
  assert (Hlook : forall schedule',
            tasks (run schedule' (start clients)) !! c =
            Some (Nat.iter (turns c schedule') alone (new_task env))).
  { intros schedule'.
    rewrite (run_lookup clients schedule' c _ (start_invariant clients)).
    cbn [start tasks]. now rewrite lookup_fmap, Henv. }
  split; [|split; [|split; [|split]]].
  - destruct Hinv as [_ Htasks]. destruct (Htasks c t Ht) as (env' & Henv' & Hsh).
    congruence.
  - intros it. repeat split. intros stocks_data H. unfold frame_of. cbn [data].
    now rewrite H.
  - intros Hend later.
    rewrite (run_lookup clients later c _ Hinv), Ht.
    cbn. now rewrite iter_alone_ended.
  - intros done it rest -> Hdone. exists (1 + 3 * length done + 3).
    intros schedule' Hn.
    assert (Hfinal : forall tail,
              Nat.iter 3 alone
                (Task LoopTop (Done tt) (it :: rest)
                   ([Accepted; Registered] ++ flat_map round done)) =
              Task Closed (Done tt) (it :: rest)
                (([Accepted; Registered] ++ flat_map round done) ++ tail) ->
              tasks (run schedule' (start clients)) !! c =
              Some (ended done it rest tail)).
    { intros tail H3.
      assert (Hiter : Nat.iter (1 + 3 * length done + 3) alone
                        (new_task (Done tt, done ++ it :: rest)) =
                      ended done it rest tail).
      { replace (1 + 3 * length done + 3) with (3 + (1 + 3 * length done)) by lia.
        rewrite Nat.iter_add, (alone_opening done (it :: rest) Hdone), H3.
        unfold ended. now rewrite <- app_assoc. }
      rewrite Hlook. f_equal.
      rewrite (iter_alone_closed (1 + 3 * length done + 3)); [exact Hiter | | exact Hn].
      now rewrite Hiter. }
    destruct (alone_exits (Done tt) it rest ([Accepted; Registered] ++ flat_map round done))
      as (H1 & H2 & H3 & H4).
    repeat split.
    + intros Hshut. apply Hfinal, H1, Hshut.
    + intros e Hopen Hf. apply Hfinal, (H2 e Hopen Hf).
    + intros e Hok Hs. apply Hfinal, (H3 e Hok Hs).
    + intros e Hok Hs Hz. apply Hfinal, (H4 e Hok Hs Hz).
  - intros done rest -> Hdone. exists (1 + 3 * length done).
    intros schedule' Hn. eexists. split; [apply Hlook|].
    pose proof (iter_alone_log _ _ (new_task (Done tt, done ++ rest)) Hn) as Hp.
    now rewrite (alone_opening done rest Hdone) in Hp.
Qed.

End BroadcasterProperties.





Lemma broadcaster_unregisters_once_witness :
  Realtime.unregistrations (Realtime.log Realtime.first_closed) = 1 /\
  (1 ∉ Realtime.active_connections
         (Realtime.run Realtime.interleaved (Realtime.start Realtime.two_clients))) /\
  Realtime.tasks
    (Realtime.run [1; 2; 1]
       (Realtime.run Realtime.interleaved (Realtime.start Realtime.two_clients))) !! 1
  = Some Realtime.first_closed /\
  Realtime.tasks (Realtime.run Realtime.interleaved (Realtime.start Realtime.two_clients)) !! 2
  = Some Realtime.second_served.
Proof.
  destruct (broadcaster_unregisters_once Realtime.two_clients Realtime.interleaved)
    as (_ & _ & _ & _ & Hclosed & _ & _).
  destruct (Hclosed 1 Realtime.first_closed eq_refl eq_refl) as (Honce & Hout & Hlater).
  split; [exact Honce|]. split; [exact Hout|].
  split; [exact (proj2 (Hlater [1; 2; 1])) | reflexivity].
Defined.

Lemma broadcaster_iterations_witness :
  Realtime.shaped [Realtime.served "t0"; Realtime.served "t1"] Realtime.second_served /\
  Realtime.shaped [Realtime.broken_pipe "t0"] Realtime.first_closed /\
  (forall later,
     Realtime.tasks
       (Realtime.run later
          (Realtime.run Realtime.interleaved (Realtime.start Realtime.two_clients))) !! 1
     = Some Realtime.first_closed) /\
  (exists n, forall schedule, n <= Realtime.turns 3 schedule ->
     Realtime.tasks (Realtime.run schedule (Realtime.start Realtime.three_clients)) !! 3 =
     Some (Realtime.Task Realtime.Closed (Realtime.Done tt)
             [Realtime.provider_down "t1"; Realtime.served "t2"]
             ([Realtime.Accepted; Realtime.Registered] ++
              Realtime.round (Realtime.served "t0") ++
              [Realtime.Fetched Realtime.tracked_symbols; Realtime.Unregistered]))) /\
  (exists n, forall schedule, n <= Realtime.turns 2 schedule ->
     exists t,
       Realtime.tasks (Realtime.run schedule (Realtime.start Realtime.three_clients)) !! 2 =
       Some t /\
       ([Realtime.Accepted; Realtime.Registered] ++
        Realtime.round (Realtime.served "t0") ++ Realtime.round (Realtime.served "t1"))
       `prefix_of` Realtime.log t).
Proof.
  split; [|split; [|split; [|split]]].
  - exact (proj1 (broadcaster_iterations Realtime.two_clients Realtime.interleaved 2
                    (Realtime.Done tt, [Realtime.served "t0"; Realtime.served "t1"])
                    Realtime.second_served eq_refl eq_refl)).
  - exact (proj1 (broadcaster_iterations Realtime.two_clients Realtime.interleaved 1
                    (Realtime.Done tt, [Realtime.broken_pipe "t0"])
                    Realtime.first_closed eq_refl eq_refl)).
  - apply (proj1 (proj2 (proj2 (broadcaster_iterations Realtime.two_clients
                    Realtime.interleaved 1
                    (Realtime.Done tt, [Realtime.broken_pipe "t0"])
                    Realtime.first_closed eq_refl eq_refl)))).
    left. reflexivity.
  - destruct (broadcaster_iterations Realtime.three_clients [] 3
                (Realtime.Done tt,
                 [Realtime.served "t0"; Realtime.provider_down "t1"; Realtime.served "t2"])
                (Realtime.new_task
                   (Realtime.Done tt,
                    [Realtime.served "t0"; Realtime.provider_down "t1";
                     Realtime.served "t2"]))
                eq_refl eq_refl) as (_ & _ & _ & Hends & _).
    destruct (Hends [Realtime.served "t0"] (Realtime.provider_down "t1")
                [Realtime.served "t2"] eq_refl) as [n Hn].
    { repeat constructor; eexists; reflexivity. }
    exists n. intros schedule Hle.
    destruct (Hn schedule Hle) as (_ & Hfetch & _).
    exact (Hfetch (Realtime.Exception "provider down") eq_refl eq_refl).
  - destruct (broadcaster_iterations Realtime.three_clients [] 2
                (Realtime.Done tt, [Realtime.served "t0"; Realtime.served "t1"])
                (Realtime.new_task
                   (Realtime.Done tt, [Realtime.served "t0"; Realtime.served "t1"]))
                eq_refl eq_refl) as (_ & _ & _ & _ & Hserved).
    destruct (Hserved [Realtime.served "t0"; Realtime.served "t1"] [] eq_refl) as [n Hn].
    { repeat constructor; eexists; reflexivity. }
    exists n. exact Hn.
Defined.

(** * Further properties of the code *)

(** ** Batch request symbols *)

Section BatchProperties.

Import Batch.

Lemma is_space_upper c : is_space (Py.upper_ascii c) = is_space c.
Proof. destruct c as [[] [] [] [] [] [] [] []]; reflexivity. Qed.

Lemma comma_not_space c : is_space c = true -> c <> ","%char.
Proof. intros H ->. discriminate. Qed.

Lemma upper_comma c : Py.upper_ascii c = ","%char <-> c = ","%char.
Proof. destruct c as [[] [] [] [] [] [] [] []]; split; intros H; try reflexivity; discriminate. Qed.

Lemma lstrip_upper s : lstrip (Py.upper s) = Py.upper (lstrip s).
Proof.
  induction s as [|c s IH]; simpl; [reflexivity|].
  rewrite is_space_upper. now destruct (is_space c).
Qed.

Lemma rstrip_upper s : rstrip (Py.upper s) = Py.upper (rstrip s).
Proof.
  induction s as [|c s IH]; simpl; [reflexivity|].
  rewrite IH, is_space_upper.
  destruct (rstrip s); simpl; [now destruct (is_space c) | reflexivity].
Qed.

Lemma strip_upper s : strip (Py.upper s) = Py.upper (strip s).
Proof. unfold strip. now rewrite lstrip_upper, rstrip_upper. Qed.

Lemma rstrip_idem s : rstrip (rstrip s) = rstrip s.
Proof.
  induction s as [|c s IH]; simpl; [reflexivity|].
  destruct (rstrip s) as [|d t] eqn:E.
  - destruct (is_space c) eqn:Ec; simpl; [reflexivity | now rewrite Ec].
  - simpl. simpl in IH. now rewrite IH.
Qed.

(** What [rstrip] leaves does not start with a space unless the string
    did. *)
Lemma lstrip_rstrip s : lstrip (rstrip (lstrip s)) = rstrip (lstrip s).
Proof.
  assert (H : forall t, lstrip t = t -> lstrip (rstrip t) = rstrip t).
  { intros [|c t]; [reflexivity|]. simpl. destruct (is_space c) eqn:Ec.
    - intros Ht. exfalso.
      assert (Hl : forall u, String.length (lstrip u) <= String.length u).
      { induction u as [|d u IHu]; simpl; [lia|]. destruct (is_space d); simpl; lia. }
      specialize (Hl t). rewrite Ht in Hl. simpl in Hl. lia.
    - intros _. destruct (rstrip t); simpl; now rewrite Ec. }
  apply H. clear H. induction s as [|c s IH]; simpl; [reflexivity|].
  destruct (is_space c) eqn:Ec; [assumption|]. simpl. now rewrite Ec.
Qed.

Lemma strip_idem s : strip (strip s) = strip s.
Proof. unfold strip. now rewrite lstrip_rstrip, rstrip_idem. Qed.

Lemma chars_lstrip s c : c ∈ chars (lstrip s) -> c ∈ chars s.
Proof.
  induction s as [|d s IH]; simpl; [auto|].
  destruct (is_space d); [|auto]. intros H. right. auto.
Qed.

Lemma chars_rstrip s c : c ∈ chars (rstrip s) -> c ∈ chars s.
Proof.
  induction s as [|d s IH]; simpl; [auto|].
  destruct (rstrip s) as [|e t].
  - destruct (is_space d); simpl; intros H.
    + now apply elem_of_nil in H.
    + apply elem_of_cons in H as [->|H]; [left | now apply elem_of_nil in H].
  - simpl. intros H. apply elem_of_cons in H as [->|H]; [left | right; auto].
Qed.

Lemma chars_strip s c : c ∈ chars (strip s) -> c ∈ chars s.
Proof. intros H. apply chars_lstrip, chars_rstrip, H. Qed.

Lemma chars_upper s : ","%char ∈ chars (Py.upper s) -> ","%char ∈ chars s.
Proof.
  induction s as [|d s IH]; simpl; [auto|].
  intros H. apply elem_of_cons in H as [H|H].
  - symmetry in H. apply (proj1 (upper_comma d)) in H. subst d. left.
  - right. auto.
Qed.

Lemma split_pieces sep s : Forall (fun piece => sep ∉ chars piece) (split sep s).
Proof.
  induction s as [|c s IH]; simpl.
  - constructor; [apply not_elem_of_nil | constructor].
  - destruct (Ascii.eqb c sep) eqn:E.
    + constructor; [apply not_elem_of_nil | assumption].
    + apply Ascii.eqb_neq in E. destruct (split sep s) as [|piece pieces].
      * constructor; [|constructor]. simpl. intros H.
        apply elem_of_cons in H as [H|H]; [congruence | now apply elem_of_nil in H].
      * inversion IH; subst. constructor; [|assumption]. simpl. intros H.
        apply elem_of_cons in H as [H|H]; [congruence | contradiction].
Qed.

Lemma symbol_list_pieces (symbols : string) :
  Forall canonical (symbol_list symbols).
Proof.
  unfold symbol_list. apply Forall_map. apply Forall_forall. intros s Hs.
  apply list_elem_of_filter in Hs as [Hne Hin]. unfold canonical.
  split; [|split; [|split]].
  - intros H. apply Hne. destruct (strip s); [reflexivity | discriminate].
  - apply Py.upper_idem.
  - now rewrite strip_upper, strip_idem.
  - intros H. apply chars_upper, chars_strip in H.
    pose proof (split_pieces ","%char symbols) as Hp.
    eapply Forall_forall in Hp; eauto.
Qed.

(** X1. Every symbol handed to the quote provider by the batch endpoint is
    non-empty, upper-case, without surrounding white space and without a
    comma. *)
Theorem symbol_list_canonical (symbols : string) :
  Forall canonical (symbol_list symbols).
Proof. apply symbol_list_pieces. Qed.

Lemma split_single sep p : sep ∉ chars p -> split sep p = [p].
Proof.
  induction p as [|c p IH]; simpl; [reflexivity|]. intros H.
  apply not_elem_of_cons in H as [Hc Hp]. rewrite (IH Hp).
  destruct (Ascii.eqb c sep) eqn:E; [|reflexivity].
  apply Ascii.eqb_eq in E. congruence.
Qed.

Lemma split_cons sep p rest :
  sep ∉ chars p -> split sep (p +:+ String sep rest) = p :: split sep rest.
Proof.
  induction p as [|c p IH]; simpl.
  - intros _. now rewrite Ascii.eqb_refl.
  - intros H. apply not_elem_of_cons in H as [Hc Hp]. rewrite (IH Hp).
    destruct (Ascii.eqb c sep) eqn:E; [|reflexivity].
    apply Ascii.eqb_eq in E. congruence.
Qed.

Lemma split_join pieces :
  pieces <> [] -> Forall (fun p => ","%char ∉ chars p) pieces ->
  split ","%char (join "," pieces) = pieces.
Proof.
  induction pieces as [|p pieces IH]; [contradiction|]. intros _ H.
  inversion H as [|? ? Hp Hrest]; subst. destruct pieces as [|q pieces].
  - simpl. now apply split_single.
  - change (join "," (p :: q :: pieces)) with (p +:+ String ","%char (join "," (q :: pieces))).
    rewrite split_cons by assumption. f_equal. now apply IH.
Qed.

(** X2. The symbols of a batch request, joined with commas, are read back
    as the same list: the endpoint brings any query to a form it leaves
    unchanged. *)
Theorem symbol_list_join (symbols : string) :
  symbol_list (join "," (symbol_list symbols)) = symbol_list symbols.
Proof.
  pose proof (symbol_list_pieces symbols) as Hc.
  generalize dependent (symbol_list symbols). intros pieces Hc.
  unfold symbol_list. destruct pieces as [|p pieces]; [reflexivity|].
  rewrite split_join; [|discriminate|].
  - induction Hc as [|x l (Hne & Hup & Hst & _) _ IH]; [reflexivity|].
    rewrite filter_cons, decide_True by now rewrite Hst.
    cbn [map]. now rewrite Hst, Hup, IH.
  - eapply Forall_impl; [exact Hc|]. intros x (_ & _ & _ & H). exact H.
Qed.

Lemma rstrip_empty s : rstrip s = EmptyString <-> Forall (fun c => is_space c = true) (chars s).
Proof.
  induction s as [|c s IH]; simpl.
  - split; [constructor | reflexivity].
  - rewrite Forall_cons, <- IH. destruct (rstrip s).
    + destruct (is_space c); split; try tauto; try discriminate.
      intros [H _]. discriminate.
    + split; [discriminate | intros [_ H]; discriminate].
Qed.

Lemma strip_empty s : strip s = EmptyString <-> Forall (fun c => is_space c = true) (chars s).
Proof.
  unfold strip. rewrite rstrip_empty. induction s as [|c s IH]; simpl; [reflexivity|].
  rewrite Forall_cons. destruct (is_space c) eqn:E.
  - rewrite IH. tauto.
  - simpl. rewrite Forall_cons, E. split; intros [H _]; discriminate.
Qed.

Lemma split_chars (Q : ascii -> Prop) sep s :
  Forall (fun c => c = sep \/ Q c) (chars s) <->
  Forall (fun p => Forall Q (chars p)) (split sep s).
Proof.
  induction s as [|c s IH]; simpl.
  - split; intros _; repeat constructor.
  - rewrite Forall_cons, IH. destruct (Ascii.eqb c sep) eqn:E.
    + apply Ascii.eqb_eq in E. rewrite Forall_cons. split.
      * intros [_ H]. split; [constructor | assumption].
      * intros [_ H]. auto.
    + apply Ascii.eqb_neq in E.
      pose proof (split_pieces sep s) as Hp.
      destruct (split sep s) as [|p pieces].
      * split.
        -- intros [[H|H] _]; [contradiction|]. repeat constructor. assumption.
        -- intros H. inversion H as [|? ? Hc _]; subst. inversion Hc; subst.
           split; [auto | constructor].
      * rewrite !Forall_cons. simpl. rewrite Forall_cons. split.
        -- intros [[H|H] [H1 H2]]; [contradiction | auto].
        -- intros [[H0 H1] H2]. auto.
Qed.

(** X3. A batch request asks for no symbol at all exactly when its query
    holds nothing but commas and white space (the empty query included). *)
Theorem symbol_list_empty (symbols : string) :
  symbol_list symbols = [] <->
  Forall (fun c => c = ","%char \/ is_space c = true) (chars symbols).
Proof.
  rewrite split_chars. unfold symbol_list.
  generalize (split ","%char symbols). intros pieces.
  induction pieces as [|p pieces IH].
  - split; [constructor | reflexivity].
  - rewrite filter_cons, Forall_cons, <- IH, <- strip_empty.
    destruct (decide (strip p <> EmptyString)) as [Hne|He].
    + cbn [map]. split; [discriminate | intros [H _]; contradiction].
    + destruct (strip p); [tauto | exfalso; apply He; discriminate].
Qed.

End BatchProperties.

(** ** Reading the watchlist *)

Section WatchlistViewProperties.

Import Watchlist WatchlistView.

Lemma symbols_of_snoc u db r :
  symbols_of u (db ++ [r]) =
  symbols_of u db ++ (if decide (user_id r = u) then [symbol r] else []).
Proof.
  unfold symbols_of. rewrite filter_app, map_app. f_equal.
  rewrite filter_cons, filter_nil. now destruct (decide _).
Qed.

Lemma symbols_of_rows u s db : s ∈ symbols_of u db <-> rows_for u s db <> [].
Proof.
  unfold symbols_of, rows_for. induction db as [|r db IH].
  - split; [intros H; now apply elem_of_nil in H | intros H; now contradiction H].
  - rewrite !filter_cons.
    destruct (decide (user_id r = u)) as [Hu|Hu];
      destruct (decide (row_is u s r)) as [[Hu' Hs]|Hn]; try contradiction.
    + cbn [map]. rewrite elem_of_cons. split; [discriminate | auto].
    + cbn [map]. rewrite elem_of_cons, IH.
      split; [intros [H|H]; [exfalso; apply Hn; split; auto | assumption] | auto].
    + exact IH.
Qed.

Lemma query_first_symbols u s db :
  query_first u s db = None <-> s ∉ symbols_of u db.
Proof.
  rewrite query_first_None, symbols_of_rows.
  destruct (rows_for u s db); split; auto; try discriminate.
  intros H. exfalso. apply H. discriminate.
Qed.

(** X4. What a POST does to the symbols its user sees: a symbol already
    listed leaves them as they are, a new one is put, upper-cased, at the
    end; either way the symbol is listed afterwards. *)
Theorem add_to_watchlist_view (item : WatchlistItem) (db : list row) :
  let u := item_user_id item in
  let s := Py.upper (item_symbol item) in
  let after := symbols_of u (snd (add_to_watchlist item db)) in
  (s ∈ symbols_of u db -> after = symbols_of u db) /\
  (s ∉ symbols_of u db -> after = symbols_of u db ++ [s]) /\
  s ∈ after /\
  forall (snapshot : Type) (get_multiple_stocks : list string -> list snapshot),
    get_watchlist get_multiple_stocks u (snd (add_to_watchlist item db)) =
    (Some after, {| response_user_id := u; stocks := get_multiple_stocks after |}).
Proof.
  intros u s after.
  assert (H : (s ∈ symbols_of u db -> after = symbols_of u db) /\
              (s ∉ symbols_of u db -> after = symbols_of u db ++ [s]) /\
              s ∈ after).
  { subst after. unfold add_to_watchlist. fold u s.
    destruct (query_first u s db) as [p|] eqn:E; cbn [snd].
    - assert (Hin : s ∈ symbols_of u db).
      { destruct (decide (s ∈ symbols_of u db)) as [H|H]; [exact H|].
        apply query_first_symbols in H. congruence. }
      split; [reflexivity|]. split; [contradiction | assumption].
    - apply query_first_symbols in E.
      rewrite symbols_of_snoc. cbn [user_id symbol]. rewrite decide_True by reflexivity.
      split; [contradiction|]. split; [reflexivity|].
      apply elem_of_app. right. left. }
  destruct H as (H1 & H2 & H3). repeat split; try assumption.
  intros snapshot get_multiple_stocks. unfold get_watchlist. fold after.
  destruct after; [now apply elem_of_nil in H3 | reflexivity].
Qed.

Lemma add_to_watchlist_view_witness :
  symbols_of "ann" (snd (add_to_watchlist (Item "msft" "ann") [Row "ann" "AAPL"])) =
  symbols_of "ann" [Row "ann" "AAPL"] ++ [Py.upper "msft"].
Proof.
  apply (proj1 (proj2 (add_to_watchlist_view (Item "msft" "ann") [Row "ann" "AAPL"]))).
  intros H. apply list_elem_of_singleton in H. discriminate.
Defined.

Lemma filter_delete_other (P : row -> Prop) `{forall r, Decision (P r)} (db : list row) :
  forall i r, db !! i = Some r -> ~ P r -> filter P (delete i db) = filter P db.
Proof.
  induction db as [|x db IH]; intros i r Hi Hr; [now destruct i|].
  destruct i as [|i].
  - simpl in Hi. injection Hi as ->.
    change (delete 0 (r :: db)) with db. now rewrite filter_cons, decide_False.
  - change (delete (S i) (x :: db)) with (x :: delete i db).
    rewrite !filter_cons, (IH i r Hi Hr). reflexivity.
Qed.

(** X5. A request of one user never changes the symbols another user
    sees. *)
Theorem watchlist_users_isolated (q : request) (other : string) (db : list row) :
  request_user q <> other ->
  symbols_of other (snd (handle q db)) = symbols_of other db.
Proof.
  intros Hne. destruct q as [item|s u]; cbn [handle request_user] in *.
  - unfold add_to_watchlist. destruct (query_first _ _ db); cbn [snd]; [reflexivity|].
    rewrite symbols_of_snoc. cbn [user_id]. rewrite decide_False by assumption.
    apply app_nil_r.
  - unfold remove_from_watchlist.
    destruct (query_first u (Py.upper s) db) as [[i r]|] eqn:E; cbn [snd]; [|reflexivity].
    apply list_find_Some in E as (Hi & [Hu _] & _).
    unfold symbols_of. f_equal. eapply filter_delete_other; eauto. congruence.
Qed.

Lemma watchlist_users_isolated_witness :
  symbols_of "bob" (snd (handle (Delete "aapl" "ann") [Row "ann" "AAPL"; Row "bob" "AAPL"])) =
  symbols_of "bob" [Row "ann" "AAPL"; Row "bob" "AAPL"].
Proof.
  apply (watchlist_users_isolated (Delete "aapl" "ann") "bob"). discriminate.
Defined.

Lemma symbols_of_cons u r db :
  symbols_of u (r :: db) =
  (if decide (user_id r = u) then [symbol r] else []) ++ symbols_of u db.
Proof. unfold symbols_of. rewrite filter_cons. now destruct (decide _). Qed.

Lemma rows_for_cons u s r db :
  rows_for u s (r :: db) =
  (if decide (row_is u s r) then [r] else []) ++ rows_for u s db.
Proof. unfold rows_for. rewrite filter_cons. now destruct (decide _). Qed.

Lemma filter_absent (s : string) (l : list string) :
  s ∉ l -> filter (fun x => x <> s) l = l.
Proof.
  induction l as [|x l IH]; [reflexivity|]. intros H.
  apply not_elem_of_cons in H as [Hx Hl].
  rewrite filter_cons, decide_True by congruence. now rewrite IH.
Qed.

Lemma delete_found_view u s (db : list row) :
  forall i r, length (rows_for u s db) <= 1 ->
  list_find (row_is u s) db = Some (i, r) ->
  symbols_of u (delete i db) = filter (fun x => x <> s) (symbols_of u db).
Proof.
  induction db as [|x db IH]; intros i r Hlen Hf; [discriminate|].
  apply list_find_Some in Hf as (Hi & Hr & Hmin).
  rewrite rows_for_cons in Hlen. rewrite symbols_of_cons.
  destruct i as [|i].
  - simpl in Hi. injection Hi as ->. change (delete 0 (r :: db)) with db.
    destruct Hr as [Hu Hs]. rewrite decide_True in Hlen by (split; assumption).
    rewrite decide_True by assumption. cbn [app].
    rewrite filter_cons, decide_False by (intros H; apply H; assumption).
    assert (Hno : s ∉ symbols_of u db).
    { rewrite symbols_of_rows. destruct (rows_for u s db); [tauto | simpl in Hlen; lia]. }
    now rewrite filter_absent.
  - change (delete (S i) (x :: db)) with (x :: delete i db).
    assert (Hx : ~ row_is u s x) by (apply (Hmin 0 x); [reflexivity | lia]).
    rewrite decide_False in Hlen by assumption.
    assert (Hf' : list_find (row_is u s) db = Some (i, r)).
    { apply list_find_Some. split; [exact Hi|]. split; [exact Hr|].
      intros j y Hj Hlt. apply (Hmin (S j) y); [exact Hj | lia]. }
    rewrite symbols_of_cons, (IH i r Hlen Hf').
    destruct (decide (user_id x = u)) as [Hu|Hu]; [|reflexivity].
    cbn [app]. rewrite filter_cons, decide_True; [reflexivity|].
    intros Hs. apply Hx. split; assumption.
Qed.

Lemma reachable_unique qs : unique_pairs (serve qs []).
Proof. apply serve_unique. intros u s. simpl. lia. Qed.

(** X6. What a DELETE does to the symbols its user sees, on any table
    reached from the empty one: the symbol, upper-cased, is gone, and the
    other symbols stay, in their order. *)
Theorem remove_from_watchlist_view (qs : list request) (s u : string) :
  let db := serve qs [] in
  symbols_of u (snd (remove_from_watchlist s u db)) =
  filter (fun x => x <> Py.upper s) (symbols_of u db).
Proof.
  intros db. unfold remove_from_watchlist.
  destruct (query_first u (Py.upper s) db) as [[i r]|] eqn:E; cbn [snd].
  - eapply delete_found_view; [apply reachable_unique | exact E].
  - apply query_first_symbols in E. now rewrite filter_absent.
Qed.

Lemma unique_pairs_view u db : unique_pairs db -> NoDup (symbols_of u db).
Proof.
  induction db as [|r db IH]; intros Hu; [constructor|].
  assert (Hdb : unique_pairs db).
  { intros u' s'. specialize (Hu u' s'). rewrite rows_for_cons, length_app in Hu. lia. }
  rewrite symbols_of_cons. destruct (decide (user_id r = u)) as [Hr|Hr]; [|auto].
  cbn [app]. apply NoDup_cons. split; [|auto].
  rewrite symbols_of_rows. specialize (Hu u (symbol r)).
  rewrite rows_for_cons, decide_True in Hu by (split; auto).
  destruct (rows_for u (symbol r) db); [tauto | simpl in Hu; lia].
Qed.

(** X7. After any sequence of requests no user sees a symbol twice, and
    every symbol a user sees is upper-case. *)
Theorem watchlist_view_clean (qs : list request) (u : string) :
  NoDup (symbols_of u (serve qs [])) /\
  Forall (fun s => Py.upper s = s) (symbols_of u (serve qs [])).
Proof.
  split.
  - apply unique_pairs_view, reachable_unique.
  - unfold symbols_of. apply Forall_map. apply Forall_forall. intros r Hr.
    apply list_elem_of_filter in Hr as [_ Hin]. unfold compose.
    pose proof (serve_upper qs [] (List.Forall_nil _)) as Hup.
    eapply Forall_forall in Hup; eauto.
Qed.

End WatchlistViewProperties.

(** ** Chat context and language-model client, further *)

Section ChatFurther.

Import Value AIService.

Context {float : Type}.
Variable float_str : float -> string.
Variable float_grouped : float -> string.

Abbreviation get_stock_context := (get_stock_context float_str float_grouped).
Abbreviation chat_messages := (chat_messages float_str float_grouped).
Abbreviation chat := (chat float_str float_grouped).
Abbreviation fmt := (fmt float_str float_grouped).

(** The snapshot can be rendered: there is none, or its volume and its
    market capitalisation are numbers. *)
Definition renders (stock_data : option (dict float)) : Prop :=
  match present stock_data with
  | None => True
  | Some d => numeric (get d "volume") /\ numeric (get d "market_cap")
  end.

Lemma fmt_plain v : fmt v Plain = Return (str float_str v).
Proof. reflexivity. Qed.

Lemma fmt_grouped_returns v text : fmt v Grouped = Return text -> numeric v.
Proof. destruct v; simpl; intros H; try discriminate; exact I. Qed.

(** The context of a non-empty snapshot, as far as the two grouped fields
    decide it. *)
Lemma get_stock_context_grouped (d : dict float) :
  d <> [] ->
  match fmt (get d "volume") Grouped, fmt (get d "market_cap") Grouped with
  | Return _, Return _ => exists block, get_stock_context (Some d) = Return block
  | Return _, Raise e => get_stock_context (Some d) = Raise e
  | Raise e, _ => get_stock_context (Some d) = Raise e
  end.
Proof.
  intros Hd. unfold AIService.get_stock_context.
  destruct d as [|b d]; [contradiction|]. cbn [present].
  destruct (fmt (get (b :: d) "volume") Grouped) as [volume|e]; [|reflexivity].
  destruct (fmt (get (b :: d) "market_cap") Grouped) as [cap|e]; [|reflexivity].
  eexists. reflexivity.
Qed.

(** X8. When the stock context of a non-empty snapshot can be built and how
    it fails otherwise: it is built exactly when volume and market
    capitalisation are both numbers; a volume that is a string (the "N/A" of
    a missing key included) raises [ValueError], a volume that is [None]
    raises [TypeError], and the market capitalisation is examined only after
    the volume. *)
Theorem get_stock_context_errors (d : dict float) :
  d <> [] ->
  ((exists block, get_stock_context (Some d) = Return block) <->
   numeric (get d "volume") /\ numeric (get d "market_cap")) /\
  (forall s, get d "volume" = VStr s ->
     get_stock_context (Some d) = Raise (ValueError "Cannot specify ',' with 's'.")) /\
  (get d "volume" = VNone ->
     get_stock_context (Some d) =
     Raise (TypeError "unsupported format string passed to NoneType.__format__")) /\
  (numeric (get d "volume") -> forall s, get d "market_cap" = VStr s ->
     get_stock_context (Some d) = Raise (ValueError "Cannot specify ',' with 's'.")) /\
  (numeric (get d "volume") -> get d "market_cap" = VNone ->
     get_stock_context (Some d) =
     Raise (TypeError "unsupported format string passed to NoneType.__format__")).
Proof.
  intros Hd. pose proof (get_stock_context_grouped d Hd) as H.
  unfold AIService.fmt in H.
  destruct (get d "volume") as [|sv|nv|xv] eqn:Ev;
    destruct (get d "market_cap") as [|sc|nc|xc] eqn:Ec; cbn [format numeric] in *.
  all: split;
    [ split;
      [ intros [block Hb]; try first [ split; exact I | rewrite H in Hb; discriminate ]
      | intros [Hv Hc]; try first [ exact H | contradiction ] ]
    | repeat split; intros; try first [ discriminate | contradiction | assumption ] ].
Qed.


Lemma renders_context stock_data :
  renders stock_data <-> exists context, get_stock_context stock_data = Return context.
Proof.
  unfold renders. destruct (present stock_data) as [d|] eqn:E.
  - assert (Hd : stock_data = Some d /\ d <> []).
    { destruct stock_data as [[|b l]|]; try discriminate. injection E as <-.
      split; [reflexivity | discriminate]. }
    destruct Hd as [-> Hd]. pose proof (get_stock_context_grouped d Hd) as H.
    unfold AIService.fmt in H.
    destruct (get d "volume") as [|sv|nv|xv]; destruct (get d "market_cap") as [|sc|nc|xc];
      cbn [format numeric] in *;
      (split; [intros [Hv Hc]; try contradiction; exact H
              | intros [context Hc]; try (rewrite H in Hc; discriminate); split; exact I]).
  - split; [intros _ | auto]. exists "".
    unfold AIService.get_stock_context. now rewrite E.
Qed.

(** The message list is built exactly when the context is. *)
Lemma chat_messages_context user_message stock_data chat_history :
  (forall context, get_stock_context stock_data = Return context ->
     exists messages, chat_messages user_message stock_data chat_history = Return messages) /\
  (forall e, get_stock_context stock_data = Raise e ->
     chat_messages user_message stock_data chat_history = Raise e).
Proof.
  split.
  - intros context Hc. unfold AIService.chat_messages.
    destruct (present stock_data); [rewrite Hc|]; eexists; reflexivity.
  - intros e He. unfold AIService.chat_messages.
    destruct (present stock_data) eqn:E.
    + now rewrite He.
    + unfold AIService.get_stock_context in He. rewrite E in He. discriminate.
Qed.

(** X9. [chat] returns exactly when the snapshot can be rendered; when it
    cannot, [chat] raises the error of the rendering whatever the endpoint
    would have done: the endpoint is not asked. *)
Theorem chat_returns_iff self post user_message stock_data chat_history :
  ((exists answer, chat self post user_message stock_data chat_history = Return answer)
   <-> renders stock_data) /\
  (~ renders stock_data ->
   exists e, get_stock_context stock_data = Raise e /\
     forall post', chat self post' user_message stock_data chat_history = Raise e).
Proof.
  destruct (chat_messages_context user_message stock_data chat_history) as [Hm Hr].
  split.
  - rewrite renders_context. split.
    + intros [answer Ha]. destruct (get_stock_context stock_data) as [context|e] eqn:Ec; [eauto|].
      unfold AIService.chat in Ha. rewrite (Hr e eq_refl) in Ha. discriminate.
    + intros [context Hc]. destruct (Hm context Hc) as [messages Hmsg].
      unfold AIService.chat. rewrite Hmsg. cbn [mbind result_bind bind].
      destruct (ask self post messages) as [answer|[]]; eauto.
  - intros Hn. destruct (get_stock_context stock_data) as [context|e] eqn:Ec.
    + exfalso. apply Hn. apply renders_context. eauto.
    + exists e. split; [reflexivity|]. intros post'.
      unfold AIService.chat. now rewrite (Hr e eq_refl).
Qed.


Lemma roles_of_turns (turns : list (dict float)) :
  map role (flat_map (turn_messages (float := float)) turns) =
  flat_map (fun _ => ["user"; "assistant"]) turns.
Proof. induction turns as [|t turns IH]; [reflexivity|]. simpl. now rewrite IH. Qed.

Lemma length_two_each {A} (l : list A) :
  length (flat_map (fun _ => ["user"; "assistant"]) l) = 2 * length l.
Proof. induction l as [|x l IH]; [reflexivity|]. simpl. rewrite IH. lia. Qed.

(** X10. Every message list sent to the model starts with the system role,
    ends with a user role, alternates user and assistant in between, and
    has two messages more than twice the number of turns kept: never more
    than twelve, however long the history is. *)
Theorem chat_messages_bounded user_message stock_data chat_history messages :
  chat_messages user_message stock_data chat_history = Return messages ->
  let kept := last_turns 5 (default [] chat_history) in
  map role messages =
    ["system"] ++ flat_map (fun _ => ["user"; "assistant"]) kept ++ ["user"] /\
  length messages = 2 + 2 * Nat.min 5 (length (default [] chat_history)) /\
  length messages <= 12.
Proof.
  intros Hm kept.
  assert (Hc : exists context, get_stock_context stock_data = Return context).
  { destruct (get_stock_context stock_data) as [context|e] eqn:Ec; [eauto|].
    apply (proj2 (chat_messages_context user_message stock_data chat_history)) in Ec.
    congruence. }
  destruct Hc as [context Hc].
  pose proof (chat_messages_shape float_str float_grouped user_message stock_data
                chat_history context Hc) as Hs.
  rewrite Hs in Hm. injection Hm as <-.
  destruct (last_turns_suffix 5 (default [] chat_history)) as (older & _ & Hl).
  fold kept in Hl |- *.
  assert (Hroles : forall final : string,
            map role ([Message "system" (VStr system_prompt)] ++
                      flat_map turn_messages kept ++ [Message "user" (VStr final)]) =
            ["system"] ++ flat_map (fun _ => ["user"; "assistant"]) kept ++ ["user"]).
  { intros final. rewrite !map_app, roles_of_turns. reflexivity. }
  split; [apply Hroles|].
  match goal with
  | |- context [Message "user" (VStr ?final)] =>
      pose proof (f_equal length (Hroles final)) as Hlen
  end.
  assert (Hr : length (["system"] ++
                       flat_map (fun _ : dict float => ["user"; "assistant"]) kept ++ ["user"]) =
               2 + 2 * Nat.min 5 (length (default [] chat_history))).
  { rewrite !length_app, length_two_each, Hl. cbn [length]. lia. }
  rewrite length_map, Hr in Hlen.
  split; [exact Hlen|].
  etransitivity; [apply Nat.eq_le_incl; exact Hlen | lia].
Qed.


(** X11. The answer of [chat] is a string, except that the reply of the
    endpoint is passed on as it is when its content is a non-empty value
    that is not a string (a number, a list, an object, [true]). *)
Theorem chat_answer_string self post user_message stock_data chat_history answer :
  chat self post user_message stock_data chat_history = Return answer ->
  (exists text, answer = JStr text) \/
  (exists messages response,
     chat_messages user_message stock_data chat_history = Return messages /\
     post (request_for self messages) = Return response /\
     status_code response = 200 /\
     generated response = Return answer /\
     truthy answer = true).
Proof.
  unfold AIService.chat.
  destruct (chat_messages user_message stock_data chat_history) as [messages|e] eqn:Em;
    cbn [mbind result_bind bind]; [|discriminate].
  unfold ask. destruct (post (request_for self messages)) as [response|e] eqn:Ep;
    cbn [mbind result_bind bind].
  - destruct (Nat.eqb (status_code response) 200) eqn:Es.
    + destruct (generated response) as [j|e] eqn:Eg; cbn [mbind result_bind bind].
      * destruct (truthy j) eqn:Et; intros [= <-]; [|eauto].
        right. exists messages, response. apply Nat.eqb_eq in Es. auto.
      * destruct e; intros [= <-]; eauto.
    + intros [= <-]. eauto.
  - destruct e; intros [= <-]; eauto.
Qed.


End ChatFurther.

Lemma get_stock_context_errors_witness :
  AIService.get_stock_context (float := unit) (fun _ => "") (fun _ => "")
    (Some [("symbol", Value.VStr "AAPL"); ("volume", Value.VNone)]) =
  Value.Raise (Value.TypeError "unsupported format string passed to NoneType.__format__").
Proof.
  destruct (get_stock_context_errors (float := unit) (fun _ => "") (fun _ => "")
              [("symbol", Value.VStr "AAPL"); ("volume", Value.VNone)])
    as (_ & _ & Hnone & _); [discriminate|].
  exact (Hnone eq_refl).
Defined.

Lemma chat_returns_iff_witness :
  exists e,
    AIService.get_stock_context (float := unit) (fun _ => "") (fun _ => "")
      (Some [("symbol", Value.VStr "AAPL")]) = Value.Raise e /\
    forall post',
      AIService.chat (float := unit) (fun _ => "") (fun _ => "")
        AIService.default_service post' "hi"
        (Some [("symbol", Value.VStr "AAPL")]) None = Value.Raise e.
Proof.
  apply (proj2 (chat_returns_iff (float := unit) (fun _ => "") (fun _ => "")
                  AIService.default_service
                  (fun _ => Value.Raise (Value.OtherError "unused"))
                  "hi" (Some [("symbol", Value.VStr "AAPL")]) None)).
  intros [H _]. exact H.
Defined.

Lemma chat_messages_bounded_witness :
  exists messages,
    AIService.chat_messages (float := unit) (fun _ => "") (fun _ => "") "hi"
      (Some AIService.snapshot_with_volume) (Some AIService.seven_turns) =
      Value.Return messages /\
    map AIService.role messages =
      ["system"; "user"; "assistant"; "user"; "assistant"; "user"; "assistant";
       "user"; "assistant"; "user"; "assistant"; "user"] /\
    take 11 (map AIService.content messages) =
      [Value.VStr AIService.system_prompt;
       Value.VStr "q3"; Value.VStr "a3"; Value.VStr "q4"; Value.VStr "a4";
       Value.VStr "q5"; Value.VStr "a5"; Value.VStr "q6"; Value.VStr "a6";
       Value.VStr "q7"; Value.VStr "a7"] /\
    length messages = 12 /\
    length messages <= 12.
Proof.
  eexists. split; [reflexivity|].
  destruct (chat_messages_bounded (float := unit) (fun _ => "") (fun _ => "") "hi"
              (Some AIService.snapshot_with_volume) (Some AIService.seven_turns)
              _ eq_refl) as (Hroles & Hlength & Hbound).
  split; [exact Hroles|]. split; [reflexivity|]. split; [exact Hlength | exact Hbound].
Defined.

Lemma chat_answer_string_witness :
  (exists text, AIService.JNum 7 = AIService.JStr text) \/
  (exists messages response,
     AIService.chat_messages (float := unit) (fun _ => "") (fun _ => "") "hi" None None =
       Value.Return messages /\
     (fun _ => Value.Return
        {| AIService.status_code := 200; AIService.text := "";
           AIService.json_body :=
             Value.Return (AIService.JObj
               [("message", AIService.JObj [("content", AIService.JNum 7)])]) |})
       (AIService.request_for AIService.default_service messages) = Value.Return response /\
     AIService.status_code response = 200 /\
     AIService.generated response = Value.Return (AIService.JNum 7) /\
     AIService.truthy (AIService.JNum 7) = true).
Proof.
  apply (chat_answer_string (float := unit) (fun _ => "") (fun _ => "")
           AIService.default_service
           (fun _ => Value.Return
              {| AIService.status_code := 200; AIService.text := "";
                 AIService.json_body :=
                   Value.Return (AIService.JObj
                     [("message", AIService.JObj [("content", AIService.JNum 7)])]) |})
           "hi" None None (AIService.JNum 7)).
  reflexivity.
Defined.

(** ** Symbol extraction, further *)

(** X12. Symbol extraction gives AAPL whenever AAPL occurs in the message,
    whatever else occurs, and gives some symbol for every message that
    holds the letter V in either case, since V is on the list: "I have a
    question" is about a stock. *)
Theorem extract_stock_symbol_priority (user_message : string) :
  (Py.occurs_nocase "AAPL" user_message ->
   Extract.extract_stock_symbol user_message = Some "AAPL") /\
  (Py.occurs_nocase "V" user_message ->
   exists symbol, Extract.extract_stock_symbol user_message = Some symbol) /\
  (forall symbol, Extract.extract_stock_symbol user_message = Some symbol ->
   symbol ∈ Extract.common_symbols).
Proof.
  split; [|split].
  - intros H. apply (Extract.scan_some _ _ _ Extract.common_symbols_upper).
    exists [], (tl Extract.common_symbols). repeat split; [exact H | constructor].
  - intros H. destruct (Extract.extract_stock_symbol user_message) as [symbol|] eqn:E; [eauto|].
    apply (Extract.scan_none _ _ Extract.common_symbols_upper) in E.
    exfalso. eapply Forall_forall in E; [exact (E H)|].
    unfold Extract.common_symbols. do 8 right. left.
  - intros symbol H.
    apply (Extract.scan_some _ _ _ Extract.common_symbols_upper) in H
      as (before & after & -> & _).
    apply elem_of_app. right. left.
Qed.

Lemma extract_stock_symbol_priority_witness :
  exists symbol, Extract.extract_stock_symbol "I have a question" = Some symbol.
Proof.
  apply (proj1 (proj2 (extract_stock_symbol_priority "I have a question"))).
  exists "I ha", "v", "e a question". split; reflexivity.
Defined.

(** ** Availability probe *)

Section ProbeProperties.

Import Value AIService Probe.

(** X13. After the probe the service counts as available exactly when the
    endpoint answered 200 and its model list could be read; whether the
    configured model is on the list makes no difference. *)
Theorem check_availability_flag (self : AIService)
    (get : string -> nat -> result http_response) :
  fst (check_availability self get) = true <->
  exists response printed,
    get (ollama_host self +:+ "/api/tags") 5 = Return response /\
    status_code response = 200 /\
    listed self response = Return printed.
Proof.
  unfold check_availability.
  destruct (get _ 5) as [response|e].
  - destruct (Nat.eqb (status_code response) 200) eqn:Es.
    + apply Nat.eqb_eq in Es. destruct (listed self response) as [printed|e] eqn:El; cbn [fst].
      * split; [intros _; eauto | reflexivity].
      * split; [discriminate|]. intros (r & p & [= <-] & _ & Hl). congruence.
    + apply Nat.eqb_neq in Es. cbn [fst]. split; [discriminate|].
      intros (r & p & [= <-] & Hs & _). contradiction.
  - cbn [fst]. split; [discriminate|]. intros (r & p & H & _). discriminate.
Qed.

(** X14. The probe reports that the model was not found only when the
    endpoint lists nothing at all: a list that holds other models but not
    the configured one is reported as initialised. *)
Theorem check_availability_not_found (self : AIService)
    (get : string -> nat -> result http_response) :
  (forall names,
     snd (check_availability self get) = ModelNotFound (model self) names ->
     names = [] /\
     exists response result models,
       get (ollama_host self +:+ "/api/tags") 5 = Return response /\
       json_body response = Return result /\
       json_get result "models" (JArr []) = Return models /\
       truthy models = false /\
       iterate models = Return []) /\
  (forall response result models items names,
     get (ollama_host self +:+ "/api/tags") 5 = Return response ->
     status_code response = 200 ->
     json_body response = Return result ->
     json_get result "models" (JArr []) = Return models ->
     iterate models = Return items ->
     model_names items = Return names ->
     truthy models = true ->
     check_availability self get = (true, Initialized (model self))).
Proof.
  split.
  - intros names. unfold check_availability.
    destruct (get _ 5) as [response|e] eqn:Eg; [|discriminate].
    destruct (Nat.eqb (status_code response) 200); [|discriminate].
    unfold listed. destruct (json_body response) as [result|e] eqn:Eb0; [|discriminate].
    cbn [mbind result_bind bind].
    destruct (json_get result "models" (JArr [])) as [models|e] eqn:Em; [|discriminate].
    cbn [mbind result_bind bind].
    destruct (iterate models) as [items|e] eqn:Ei; [|discriminate].
    cbn [mbind result_bind bind].
    destruct (model_names items) as [found|e] eqn:En; [|discriminate].
    cbn [mbind result_bind bind snd].
    destruct (existsb _ found || truthy models) eqn:Eb; [discriminate|].
    intros [= <-]. apply orb_false_iff in Eb as [_ Ht].
    assert (Hitems : items = []).
    { destruct models as [| | | s | l | l]; cbn in Ei, Ht; try discriminate;
        injection Ei as <-.
      - destruct s; [reflexivity | discriminate].
      - destruct l; [reflexivity | discriminate].
      - destruct l; [reflexivity | discriminate]. }
    subst items. cbn in En. injection En as <-.
    split; [reflexivity|]. exists response, result, models.
    repeat split; try reflexivity; assumption.
  - intros response result models items names Hg Hs Hb Hm Hi Hn Ht.
    unfold check_availability, listed. rewrite Hg, Hs, Hb. cbn [Nat.eqb mbind result_bind bind].
    rewrite Hm. cbn [mbind result_bind bind]. rewrite Hi. cbn [mbind result_bind bind].
    rewrite Hn. cbn [mbind result_bind bind]. now rewrite Ht, orb_true_r.
Qed.

End ProbeProperties.

Lemma check_availability_not_found_witness :
  @nil string = [] /\
  exists response result models,
    (fun (_ : string) (_ : nat) =>
       Value.Return {| AIService.status_code := 200; AIService.text := "";
                       AIService.json_body := Value.Return (AIService.JObj []) |})
      (AIService.ollama_host AIService.default_service +:+ "/api/tags") 5 =
      Value.Return response /\
    AIService.json_body response = Value.Return result /\
    AIService.json_get result "models" (AIService.JArr []) = Value.Return models /\
    AIService.truthy models = false /\
    Probe.iterate models = Value.Return [].
Proof.
  apply (proj1 (check_availability_not_found AIService.default_service
           (fun _ _ => Value.Return {| AIService.status_code := 200; AIService.text := "";
                                       AIService.json_body := Value.Return (AIService.JObj []) |}))).
  reflexivity.
Defined.

(** ** Realtime broadcaster, further *)

Section BroadcasterFurther.

Import Realtime.

Context {snapshot : Type}.

(** X15. [ConnectionManager.disconnect] fails exactly on a connection that
    is not registered; otherwise it takes out the first occurrence of the
    connection and leaves everything else where it was. *)
Theorem disconnect_first_occurrence (websocket : ws) (registry : list ws) :
  (disconnect websocket registry = None <-> websocket ∉ registry) /\
  (forall remaining, disconnect websocket registry = Some remaining ->
     exists before after,
       registry = before ++ websocket :: after /\
       (websocket ∉ before) /\
       remaining = before ++ after).
Proof.
  unfold disconnect. induction registry as [|w registry IH]; simpl;
    [|destruct IH as [IHn IHs]].
  - split; [split; [intros _; apply not_elem_of_nil | reflexivity] | discriminate].
  - destruct (decide (w = websocket)) as [->|Hne].
    + split.
      * split; [discriminate | intros H; exfalso; apply H; left].
      * intros remaining [= <-]. exists [], registry.
        split; [reflexivity|]. split; [apply not_elem_of_nil | reflexivity].
    + split.
      * rewrite not_elem_of_cons, <- IHn.
        destruct (remove websocket registry); simpl; split.
        -- discriminate.
        -- intros [_ H]. discriminate.
        -- intros _. split; [congruence | reflexivity].
        -- reflexivity.
      * intros remaining H. destruct (remove websocket registry) as [l|]; [|discriminate].
        simpl in H. injection H as <-.
        destruct (IHs l eq_refl) as (before & after & -> & Hb & ->).
        exists (w :: before), after. split; [reflexivity|].
        split; [|reflexivity]. apply not_elem_of_cons. split; [congruence | assumption].
Qed.

Lemma disconnect_first_occurrence_witness :
  exists before after,
    [4; 7; 4] = before ++ 4 :: after /\ (4 ∉ before) /\ [7; 4] = before ++ after.
Proof.
  apply (proj2 (disconnect_first_occurrence 4 [4; 7; 4]) [7; 4]). reflexivity.
Defined.

Lemma remove_snoc (c : ws) (registry : list ws) :
  c ∉ registry -> remove c (registry ++ [c]) = Some registry.
Proof.
  induction registry as [|w registry IH]; simpl; intros H.
  - now rewrite decide_True.
  - apply not_elem_of_cons in H as [Hw Hr]. rewrite decide_False by congruence.
    now rewrite (IH Hr).
Qed.

Lemma remove_member (c : ws) (registry : list ws) :
  c ∈ registry -> exists remaining,
    remove c registry = Some remaining /\ c :: remaining ≡ₚ registry.
Proof.
  induction registry as [|w registry IH]; intros H.
  - now apply elem_of_nil in H.
  - simpl. destruct (decide (w = c)) as [->|Hne]; [eauto|].
    apply elem_of_cons in H as [->|H]; [congruence|].
    destruct (IH H) as (remaining & -> & Hp). exists (w :: remaining).
    split; [reflexivity|]. rewrite Permutation_swap. now constructor.
Qed.

(** X16. Registering a connection and unregistering it again never fails
    and leaves a registry with the same connections, each as often as
    before; when the connection was not registered before, the registry is
    exactly what it was. *)
Theorem connect_disconnect (websocket : ws) (registry : list ws) :
  (exists remaining,
     disconnect websocket (connect websocket registry) = Some remaining /\
     remaining ≡ₚ registry) /\
  (websocket ∉ registry ->
   disconnect websocket (connect websocket registry) = Some registry).
Proof.
  unfold disconnect, connect. split; [|apply remove_snoc].
  destruct (remove_member websocket (registry ++ [websocket])) as (remaining & Hr & Hp).
  { apply elem_of_app. right. left. }
  exists remaining. split; [exact Hr|].
  apply (Permutation_cons_inv (a := websocket)).
  rewrite Hp. symmetry. apply Permutation_cons_append.
Qed.

Lemma connect_disconnect_witness :
  disconnect 3 (connect 3 [1; 2]) = Some [1; 2].
Proof.
  apply (proj2 (connect_disconnect 3 [1; 2])).
  intros H. repeat (apply elem_of_cons in H as [H|H]; [discriminate|]).
  now apply elem_of_nil in H.
Defined.

Lemma pushed_frames_app (l k : list (@action snapshot)) :
  pushed_frames (l ++ k) = pushed_frames l ++ pushed_frames k.
Proof. apply flat_map_app. Qed.

Lemma pushed_frames_rounds (done : list (@iteration snapshot)) :
  pushed_frames (flat_map round done) = map frame_of done.
Proof.
  induction done as [|it done IH]; [reflexivity|].
  change (flat_map round (it :: done)) with (round it ++ flat_map round done).
  rewrite pushed_frames_app, IH. reflexivity.
Qed.

Lemma completed_fetched (it : @iteration snapshot) : completed it -> fetched_ok it.
Proof. intros (Ho & Hf & _). now split. Qed.

(** X17. Whatever the schedule, the frames pushed to a connection so far are
    the frames of the first iterations of its environment, one frame for
    each, in their order, each made from a fetch that returned: no frame is
    pushed twice, none is skipped and none is pushed out of turn.  And the
    connection is served: when its handshake succeeds and its first
    iterations complete, then once it has been resumed often enough the
    frames of all of them have been pushed, however its turns are
    interleaved with those of other connections. *)
Theorem broadcaster_frames_in_order
    (clients : gmap ws (outcome unit * list (@iteration snapshot))) (schedule : list ws)
    (c : ws) env (t : @task snapshot) :
  clients !! c = Some env ->
  tasks (run schedule (start clients)) !! c = Some t ->
  (exists k,
     pushed_frames (log t) = map frame_of (take k (snd env)) /\
     Forall fetched_ok (take k (snd env))) /\
  (forall done rest,
     env = (Done tt, done ++ rest) -> Forall completed done ->
     exists n, forall schedule', n <= turns c schedule' ->
       exists t', tasks (run schedule' (start clients)) !! c = Some t' /\
                  map frame_of done `prefix_of` pushed_frames (log t')).
Proof.
  intros Henv Ht. split.
  - destruct (run_invariant clients schedule _ (start_invariant clients)) as [_ Htasks].
    destruct (Htasks c t Ht) as (env' & Henv' & Hsh).
    assert (env' = env) by congruence. subst env'. clear Ht Htasks Henv'.
    destruct t as [p acc scr lg]. cbn [pc script log] in *.
    assert (Hrun : (exists done tail,
                      snd env = done ++ scr /\
                      lg = [Accepted; Registered] ++ flat_map round done ++ tail /\
                      Forall completed done /\
                      last_round (scr) p tail) ->
                   exists k,
                     pushed_frames (lg) = map frame_of (take k (snd env)) /\
                     Forall fetched_ok (take k (snd env))).
    { intros (done & tail & Hscr & Hlog & Hdone & Hl).
      assert (Hd : Forall fetched_ok done).
      { eapply Forall_impl; [exact Hdone | apply completed_fetched]. }
      rewrite Hlog, Hscr, !pushed_frames_app, pushed_frames_rounds.
      change (pushed_frames [Accepted; Registered]) with (@nil (@frame snapshot)).
      cbn [app].
      assert (Hnone : pushed_frames tail = [] ->
                exists k,
                  map frame_of done ++ pushed_frames tail =
                    map frame_of (take k (done ++ scr)) /\
                  Forall fetched_ok (take k (done ++ scr))).
      { intros ->. exists (length done). rewrite take_app_length.
        split; [now rewrite app_nil_r | exact Hd]. }
      assert (Hone : forall it rest,
                scr = it :: rest -> fetched_ok it ->
                pushed_frames tail = [frame_of it] ->
                exists k,
                  map frame_of done ++ pushed_frames tail =
                    map frame_of (take k (done ++ scr)) /\
                  Forall fetched_ok (take k (done ++ scr))).
      { intros it rest Hscr' Hok ->. subst scr. exists (length (done ++ [it])).
        replace (done ++ it :: rest) with ((done ++ [it]) ++ rest)
          by (now rewrite <- app_assoc).
        rewrite take_app_length. split; [now rewrite map_app|].
        apply Forall_app. split; [exact Hd | now constructor]. }
      inversion Hl as [scr0 | it rest Hok | it rest Hok Hs | it rest Hshut
                      | it rest e Ho Hf | it rest e Hok Hs | it rest e Hok Hs Hz];
        subst;
        try (apply Hnone; reflexivity);
        apply (Hone it rest); auto. }
    unfold shaped in Hsh. cbn [pc script log] in Hsh |- *. destruct p.
    + destruct Hsh as [-> _]. exists 0. rewrite take_0. split; [reflexivity | constructor].
    + apply Hrun, Hsh.
    + apply Hrun, Hsh.
    + apply Hrun, Hsh.
    + apply Hrun, Hsh.
    + subst lg. exists 0. rewrite take_0. split; [reflexivity | constructor].
  - intros done rest -> Hdone. exists (1 + 3 * length done). intros schedule' Hn.
    eexists. split.
    { rewrite (run_lookup clients schedule' c _ (start_invariant clients)).
      cbn [start tasks]. rewrite lookup_fmap, Henv. reflexivity. }
    pose proof (iter_alone_log _ _ (new_task (Done tt, done ++ rest)) Hn) as [more Hp].
    rewrite (alone_opening done rest Hdone) in Hp. cbn [log] in Hp.
    rewrite Hp, !pushed_frames_app, pushed_frames_rounds.
    change (pushed_frames [Accepted; Registered]) with (@nil (@frame snapshot)).
    cbn [app]. now eexists.
Qed.

Lemma alone_refused (t : @task snapshot) e :
  accept t = Raised e -> log t = [] -> pc t = Connecting \/ pc t = Refused ->
  accept (alone t) = Raised e /\ log (alone t) = [] /\
  (pc (alone t) = Connecting \/ pc (alone t) = Refused).
Proof.
  destruct t as [p acc scr lg]. cbn [accept log pc]. intros -> -> [-> | ->];
    unfold alone, step_task; cbn [pc accept script log snd]; auto.
Qed.

(** X18. A connection whose handshake fails is never registered, and
    nothing is ever fetched for it or pushed to it: its log stays empty. *)
Theorem refused_handshake
    (clients : gmap ws (outcome unit * list (@iteration snapshot))) (schedule : list ws)
    (c : ws) e script0 :
  clients !! c = Some (Raised e, script0) ->
  (c ∉ active_connections (run schedule (start clients))) /\
  exists t, tasks (run schedule (start clients)) !! c = Some t /\
            log t = [] /\ (pc t = Connecting \/ pc t = Refused).
Proof.
  intros Hc.
  pose proof (run_invariant clients schedule _ (start_invariant clients)) as [[_ Hreg] _].
  assert (Ht : forall n,
            accept (Nat.iter n alone (new_task (Raised e, script0))) = Raised e /\
            log (Nat.iter n alone (new_task (Raised e, script0))) = [] /\
            (pc (Nat.iter n alone (new_task (Raised e, script0))) = Connecting \/
             pc (Nat.iter n alone (new_task (Raised e, script0))) = Refused)).
  { induction n as [|n (Ha & Hl & Hp)].
    - split; [reflexivity|]. split; [reflexivity | now left].
    - change (Nat.iter (S n) alone ?x) with (alone (Nat.iter n alone x)).
      now apply alone_refused. }
  destruct (Ht (turns c schedule)) as (_ & Hl & Hp).
  assert (Hlook : tasks (run schedule (start clients)) !! c =
                  Some (Nat.iter (turns c schedule) alone (new_task (Raised e, script0)))).
  { rewrite (run_lookup clients schedule c _ (start_invariant clients)).
    cbn [start tasks]. now rewrite lookup_fmap, Hc. }
  split; [|eauto].
  intros Hin. apply Hreg in Hin as (t' & Ht' & Hlive).
  rewrite Hlook in Ht'. injection Ht' as <-.
  destruct Hp as [Hp|Hp]; rewrite Hp in Hlive; exact Hlive.
Qed.

End BroadcasterFurther.

Lemma broadcaster_frames_in_order_witness :
  (exists k,
     Realtime.pushed_frames (Realtime.log Realtime.second_served) =
       map Realtime.frame_of (take k [Realtime.served "t0"; Realtime.served "t1"]) /\
     Forall Realtime.fetched_ok (take k [Realtime.served "t0"; Realtime.served "t1"])) /\
  Realtime.pushed_frames (Realtime.log Realtime.second_served) =
    [Realtime.Frame "stock_update" Realtime.tracked_symbols "t0";
     Realtime.Frame "stock_update" Realtime.tracked_symbols "t1"] /\
  (exists n, forall schedule, n <= Realtime.turns 2 schedule ->
     exists t,
       Realtime.tasks (Realtime.run schedule (Realtime.start Realtime.two_clients)) !! 2 =
       Some t /\
       [Realtime.Frame "stock_update" Realtime.tracked_symbols "t0";
        Realtime.Frame "stock_update" Realtime.tracked_symbols "t1"]
       `prefix_of` Realtime.pushed_frames (Realtime.log t)).
Proof.
  destruct (broadcaster_frames_in_order Realtime.two_clients Realtime.interleaved 2
              (Realtime.Done tt, [Realtime.served "t0"; Realtime.served "t1"])
              Realtime.second_served eq_refl eq_refl) as [Hframes Hserved].
  split; [exact Hframes|]. split; [reflexivity|].
  destruct (Hserved [Realtime.served "t0"; Realtime.served "t1"] [] eq_refl) as [n Hn].
  { repeat constructor; eexists; reflexivity. }
  exists n. exact Hn.
Defined.

Lemma refused_handshake_witness :
  (5 ∉ Realtime.active_connections
         (Realtime.run [5; 5; 5]
            (Realtime.start (<[5 := (Realtime.Raised (Realtime.Exception "handshake"),
                                     [Realtime.served "t0"])]> ∅)))) /\
  exists t,
    Realtime.tasks
      (Realtime.run [5; 5; 5]
         (Realtime.start (<[5 := (Realtime.Raised (Realtime.Exception "handshake"),
                                  [Realtime.served "t0"])]> ∅))) !! 5 = Some t /\
    Realtime.log t = [] /\
    (Realtime.pc t = Realtime.Connecting \/ Realtime.pc t = Realtime.Refused).
Proof.
  apply (refused_handshake
           (<[5 := (Realtime.Raised (Realtime.Exception "handshake"),
                    [Realtime.served "t0"])]> ∅)
           [5; 5; 5] 5 (Realtime.Exception "handshake") [Realtime.served "t0"]).
  reflexivity.
Defined.

(** ** The chat endpoint *)

Section ChatEndpointProperties.

Import Value AIService ChatHandler ChatEndpoint.

Context {float : Type}.
Variable float_str : float -> string.
Variable float_grouped : float -> string.
Variable get_stock_data : string -> option (dict float).
Variable self : AIService.
Variable post : chat_request (float := float) -> result http_response.
Variable to_dict : ChatHistory (float := float) -> dict float.

Abbreviation chat_endpoint :=
  (chat_endpoint float_str float_grouped get_stock_data self post to_dict).
Abbreviation history_list := (history_list to_dict).
Abbreviation get_chat_history := (get_chat_history to_dict).

Lemma reverse_take_reverse {A} (n : nat) (l : list A) :
  reverse (take n (reverse l)) = drop (length l - n) l.
Proof. now rewrite take_reverse, reverse_involutive. Qed.

(** X19. The history handed to the model is made of the last five turns,
    at most, of the session of the request, oldest first; so the cut
    [chat_history[-5:]] of the service never removes anything from it, and
    the answer of the endpoint is the same on two tables whose last five
    turns of that session are the same, whatever their other rows. *)
Theorem chat_endpoint_window (now : string) (request : ChatRequest)
    (db : list (ChatHistory (float := float))) :
  let turns := session_turns (session_id request) db in
  history_list (session_id request) db = map to_dict (drop (length turns - 5) turns) /\
  last_turns 5 (history_list (session_id request) db) = history_list (session_id request) db /\
  forall db',
    let turns' := session_turns (session_id request) db' in
    drop (length turns' - 5) turns' = drop (length turns - 5) turns ->
    seen (chat_endpoint now request db') = seen (chat_endpoint now request db).
Proof.
  intros turns.
  assert (Hh : forall d, history_list (session_id request) d =
            map to_dict (drop (length (session_turns (session_id request) d) - 5)
                              (session_turns (session_id request) d))).
  { intros d. unfold ChatEndpoint.history_list, recent. now rewrite reverse_take_reverse. }
  split; [apply Hh|]. split.
  - rewrite Hh. fold turns. unfold last_turns.
    rewrite length_map, length_drop.
    replace (length turns - (length turns - 5) - 5) with 0 by lia. reflexivity.
  - intros db' turns' Heq. unfold seen, ChatEndpoint.chat_endpoint.
    rewrite !Hh. fold turns turns'. rewrite Heq.
    destruct (chat _ _ _ _ _ _ _) as [answer|e]; [|reflexivity].
    cbn [mbind result_bind bind].
    destruct (symbol_of _) as [symbol|e]; reflexivity.
Qed.

Lemma session_turns_snoc session (db : list (ChatHistory (float := float))) h :
  session_turns session (db ++ [h]) =
  session_turns session db ++ (if decide (turn_session_id h = session) then [h] else []).
Proof.
  unfold session_turns. rewrite filter_app. reflexivity.
Qed.

(** X20. When the chat endpoint answers, the table is the old table with
    one row added at its end: the row of this session, this message and the
    answer given, with the symbol the snapshot itself carries (none without
    a snapshot).  No earlier row is changed or removed; the history of the
    session read afterwards is the old one followed by the new turn, and
    the history of every other session is as it was. *)
Theorem chat_endpoint_appends (now : string) (request : ChatRequest)
    (db db' : list (ChatHistory (float := float))) (answer : ChatResponse) :
  chat_endpoint now request db = (Return answer, db') ->
  exists record,
    db' = db ++ [record] /\
    turn_session_id record = session_id request /\
    turn_user_message record = message request /\
    turn_ai_response record = response answer /\
    symbol_of (response_stock_data answer) = Return (turn_stock_symbol record) /\
    get_chat_history (session_id request) db' =
      get_chat_history (session_id request) db ++ [to_dict record] /\
    forall other, other <> session_id request ->
      get_chat_history other db' = get_chat_history other db.
Proof.
  unfold ChatEndpoint.chat_endpoint.
  destruct (chat _ _ _ _ _ _ _) as [ai_response|e]; [|discriminate].
  cbn [mbind result_bind bind].
  destruct (symbol_of _) as [stock_symbol|e] eqn:Es; [|discriminate].
  cbn [mbind result_bind bind]. unfold new_response.
  destruct ai_response as [| | | text | |]; try discriminate. intros [= <- <-].
  eexists. split; [reflexivity|]. cbn [turn_session_id turn_user_message
    turn_ai_response turn_stock_symbol response response_stock_data].
  repeat split; try assumption.
  - unfold ChatEndpoint.get_chat_history. rewrite session_turns_snoc.
    cbn [turn_session_id]. rewrite decide_True by reflexivity. now rewrite map_app.
  - intros other Hne. unfold ChatEndpoint.get_chat_history. rewrite session_turns_snoc.
    cbn [turn_session_id]. rewrite decide_False by congruence. now rewrite app_nil_r.
Qed.


End ChatEndpointProperties.

Lemma chat_endpoint_window_witness :
  ChatEndpoint.seen
    (ChatEndpoint.chat_endpoint (float := unit) (fun _ => "") (fun _ => "")
       (fun _ => None) AIService.default_service ChatEndpoint.echo_oldest
       ChatEndpoint.question_only "now"
       {| ChatHandler.message := "hello"; ChatHandler.session_id := "s1";
          ChatHandler.stock_symbol := None |}
       ChatEndpoint.short_table) =
  ChatEndpoint.seen
    (ChatEndpoint.chat_endpoint (float := unit) (fun _ => "") (fun _ => "")
       (fun _ => None) AIService.default_service ChatEndpoint.echo_oldest
       ChatEndpoint.question_only "now"
       {| ChatHandler.message := "hello"; ChatHandler.session_id := "s1";
          ChatHandler.stock_symbol := None |}
       ChatEndpoint.long_table) /\
  ChatEndpoint.seen
    (ChatEndpoint.chat_endpoint (float := unit) (fun _ => "") (fun _ => "")
       (fun _ => None) AIService.default_service ChatEndpoint.echo_oldest
       ChatEndpoint.question_only "now"
       {| ChatHandler.message := "hello"; ChatHandler.session_id := "s1";
          ChatHandler.stock_symbol := None |}
       ChatEndpoint.long_table) =
  Value.Return {| ChatEndpoint.response := AIService.JStr "q2";
                  ChatEndpoint.response_stock_data := None;
                  ChatEndpoint.timestamp := "now" |} /\
  ChatEndpoint.history_list ChatEndpoint.question_only "s1" ChatEndpoint.long_table =
  map ChatEndpoint.question_only
    [ChatEndpoint.asked "s1" "q2"; ChatEndpoint.asked "s1" "q3";
     ChatEndpoint.asked "s1" "q4"; ChatEndpoint.asked "s1" "q5";
     ChatEndpoint.asked "s1" "q6"].
Proof.
  destruct (chat_endpoint_window (float := unit) (fun _ => "") (fun _ => "")
              (fun _ => None) AIService.default_service ChatEndpoint.echo_oldest
              ChatEndpoint.question_only "now"
              {| ChatHandler.message := "hello"; ChatHandler.session_id := "s1";
                 ChatHandler.stock_symbol := None |}
              ChatEndpoint.long_table) as (Hhistory & _ & Hsame).
  split; [|split].
  - apply (Hsame ChatEndpoint.short_table). reflexivity.
  - reflexivity.
  - exact Hhistory.
Defined.

Lemma chat_endpoint_appends_witness :
  exists record,
    [record] = [] ++ [record] /\
    ChatEndpoint.turn_session_id (float := unit) record = "s1" /\
    ChatEndpoint.turn_user_message record = "hello" /\
    ChatEndpoint.turn_ai_response record = AIService.JStr AIService.unreachable_message.
Proof.
  destruct (chat_endpoint_appends (float := unit) (fun _ => "") (fun _ => "")
              (fun _ => None) AIService.default_service
              (fun _ => Value.Raise (Value.ConnectError "refused"))
              (fun h => [("user_message", Value.VStr (ChatEndpoint.turn_user_message h))])
              "now"
              {| ChatHandler.message := "hello"; ChatHandler.session_id := "s1";
                 ChatHandler.stock_symbol := None |}
              [] _ _ eq_refl)
    as (record & Hdb & Hs & Hm & Ha & _).
  exists record. injection Hdb as <-. repeat split; assumption.
Defined.


(** ** Market indices *)

Section IndicesProperties.

Import Value Indices.

Context {float : Type}.

Lemma dict_get_set (d : dict float) key v k default :
  dict_get (dict_set d key v) k default =
  if String.eqb key k then v else dict_get d k default.
Proof.
  induction d as [|[k0 w] d IH]; simpl.
  - reflexivity.
  - destruct (String.eqb k0 key) eqn:E0; simpl.
    + apply String.eqb_eq in E0. subst k0. now destruct (String.eqb key k).
    + rewrite IH. destruct (String.eqb k0 k) eqn:E1; [|reflexivity].
      apply String.eqb_eq in E1. subst k0. now rewrite String.eqb_sym, E0.
Qed.

Lemma item_get (d : dict float) key v :
  ChatEndpoint.item d key = Return v -> forall default, dict_get d key default = v.
Proof.
  induction d as [|[k w] d IH]; simpl; [discriminate|].
  destruct (String.eqb k key); [intros [= ->]; reflexivity | auto].
Qed.

Lemma item_missing (d : dict float) key :
  (exists e, ChatEndpoint.item d key = Raise e) <-> ~ has_key d key.
Proof.
  unfold has_key. induction d as [|[k w] d IH]; simpl.
  - split; [intros _ [v H]; now apply elem_of_nil in H | eauto].
  - destruct (String.eqb k key) eqn:E.
    + apply String.eqb_eq in E. subst k. split.
      * intros [e H]. discriminate.
      * intros H. exfalso. apply H. exists w. left.
    + apply String.eqb_neq in E. rewrite IH. split.
      * intros H [v Hv]. apply elem_of_cons in Hv as [[= -> ->]|Hv]; [congruence|].
        apply H. eauto.
      * intros H [v Hv]. apply H. exists v. now right.
Qed.

(** What labelling does to one item that has a symbol. *)
Lemma label_item (item item' : dict float) :
  label item = Return item' ->
  (forall key default, key <> "display_name" ->
     dict_get item' key default = dict_get item key default) /\
  (forall s name default,
     dict_get item "symbol" VNone = VStr s -> friendly name_map s = Some name ->
     dict_get item' "display_name" default = VStr name) /\
  ((forall s, dict_get item "symbol" VNone = VStr s -> friendly name_map s = None) ->
   item' = item).
Proof.
  unfold label. destruct (ChatEndpoint.item item "symbol") as [symbol|e] eqn:Es; [|discriminate].
  pose proof (item_get _ _ _ Es VNone) as Hg. cbn [mbind result_bind bind].
  destruct symbol as [|s|n|x]; try (intros [= <-]; rewrite Hg;
    repeat split; intros; try reflexivity; discriminate).
  destruct (friendly name_map s) as [name|] eqn:Ef; intros [= <-]; rewrite Hg.
  - split; [|split].
    + intros key default Hk. rewrite dict_get_set.
      destruct (String.eqb "display_name" key) eqn:E; [|reflexivity].
      apply String.eqb_eq in E. congruence.
    + intros s' name' default [= <-] Hn. rewrite dict_get_set. cbn. congruence.
    + intros H. specialize (H s eq_refl). congruence.
  - repeat split; intros; try reflexivity. congruence.
Qed.

(** X22. When the indices endpoint answers, it returns as many items as
    the quote provider gave, in the same order; every item keeps all its
    fields but [display_name]; an item whose symbol is one of the four
    indices gets the friendly name of that index as [display_name], and
    every other item is returned as it was. *)
Theorem get_market_indices_labels
    (get_multiple_stocks : list string -> list (dict float)) (now : string) answer :
  get_market_indices get_multiple_stocks now = Return answer ->
  Forall2 (fun item item' =>
     (forall key default, key <> "display_name" ->
        dict_get item' key default = dict_get item key default) /\
     (forall s name default,
        dict_get item "symbol" VNone = VStr s -> friendly name_map s = Some name ->
        dict_get item' "display_name" default = VStr name) /\
     ((forall s, dict_get item "symbol" VNone = VStr s -> friendly name_map s = None) ->
      item' = item))
    (get_multiple_stocks indices) (response_indices answer).
Proof.
  unfold get_market_indices.
  generalize (get_multiple_stocks indices). intros items.
  destruct (label_all items) as [labelled|e] eqn:El; [|discriminate].
  cbn [mbind result_bind bind]. intros [= <-]. cbn [response_indices].
  revert labelled El. induction items as [|item items IH]; intros labelled El.
  - injection El as <-. constructor.
  - simpl in El. destruct (label item) as [item'|e] eqn:Ei; [|discriminate].
    cbn [mbind result_bind bind] in El.
    destruct (label_all items) as [rest'|e]; [|discriminate].
    cbn [mbind result_bind bind] in El. injection El as <-.
    constructor; [now apply label_item | now apply IH].
Qed.

(** X23. The indices endpoint fails exactly when the quote provider hands
    it an item without a symbol. *)
Theorem get_market_indices_fails
    (get_multiple_stocks : list string -> list (dict float)) (now : string) :
  (exists e, get_market_indices get_multiple_stocks now = Raise e) <->
  Exists (fun item => ~ has_key item "symbol") (get_multiple_stocks indices).
Proof.
  unfold get_market_indices.
  generalize (get_multiple_stocks indices). intros items.
  assert (H : (exists e, label_all items = Raise e) <->
              Exists (fun item => ~ has_key item "symbol") items).
  { induction items as [|item items IH]; simpl.
    - split; [intros [e H]; discriminate | intros H; inversion H].
    - rewrite Exists_cons, <- IH, <- item_missing. unfold label.
      destruct (ChatEndpoint.item item "symbol") as [symbol|e]; cbn [mbind result_bind bind].
      + assert (Hl : exists item', match symbol with
                       | VStr s => match friendly name_map s with
                                   | Some name => Return (dict_set item "display_name" (VStr name))
                                   | None => Return item
                                   end
                       | _ => Return item
                       end = Return item').
        { destruct symbol as [|s|n|x]; eauto. destruct (friendly name_map s); eauto. }
        destruct Hl as [item' ->]. cbn [bind].
        destruct (label_all items) as [rest'|e]; cbn [bind].
        * split; [intros [e H]; discriminate | intros [[e H]|[e H]]; discriminate].
        * split; [eauto | eauto].
      + split; eauto. }
  rewrite <- H. destruct (label_all items) as [labelled|e]; cbn [mbind result_bind bind].
  - split; intros [e He]; discriminate.
  - split; eauto.
Qed.

End IndicesProperties.

Lemma get_market_indices_labels_witness :
  Forall2 (fun item item' =>
     (forall key default, key <> "display_name" ->
        Value.dict_get item' key default = Value.dict_get item key default) /\
     (forall s name default,
        Value.dict_get item "symbol" Value.VNone = Value.VStr s ->
        Indices.friendly Indices.name_map s = Some name ->
        Value.dict_get item' "display_name" default = Value.VStr name) /\
     ((forall s, Value.dict_get item "symbol" Value.VNone = Value.VStr s ->
                 Indices.friendly Indices.name_map s = None) ->
      item' = item))
    [[("symbol", Value.VStr (float := unit) "^DJI"); ("price", Value.VInt 39000)]]
    [[("symbol", Value.VStr "^DJI"); ("price", Value.VInt 39000);
      ("display_name", Value.VStr "Dow Jones")]].
Proof.
  apply (get_market_indices_labels (float := unit)
           (fun _ => [[("symbol", Value.VStr "^DJI"); ("price", Value.VInt 39000)]]) "now"
           {| Indices.response_indices :=
                [[("symbol", Value.VStr "^DJI"); ("price", Value.VInt 39000);
                  ("display_name", Value.VStr "Dow Jones")]];
              Indices.response_timestamp := "now" |}).
  reflexivity.
Defined.
